(** * The channel message dispatcher

    A shallow embedding of [MessageDispatcherImpl] (package [channel]):
    [sanitizeURL], [executeRequest] and [DispatchMessage], with the
    delivery properties of the dispatcher proved over it.

    Conventions of the embedding.
    - A Go pointer or interface value that the code compares with [nil]
      is an [option]; [nethttp.Header] is a nilable map.
    - A Go [error] is its message; [fmt.Errorf] is string concatenation.
    - The network, the request writer and the messages are collaborators
      of the dispatcher.  What they answer is arbitrary and may depend on
      everything exchanged so far; every call of [executeRequest] and
      every [Finish] is recorded in a [World], threaded through the code
      by a state monad.
    - The context, the tracing span and the logger carry no result the
      dispatcher branches on and are left out. *)

From stdpp Require Import base option list strings pretty gmap.

Open Scope Z_scope.

(** ** Data *)

(** A non-nil Go [error], represented by the text of [Error()]. *)
Definition error := string.

(** [net/http.Header]: [map[string][]string], possibly [nil]. *)
Definition Header := option (gmap string (list string)).

(** [binding.Encoding] of the CloudEvents SDK. *)
Inductive Encoding :=
| EncodingBinary
| EncodingStructured
| EncodingEvent
| EncodingUnknown.

#[global] Instance Encoding_eq_dec : EqDecision Encoding.
Proof. solve_decision. Defined.

Module url.

(** [net/url.Userinfo]. *)
Record Userinfo := {
  username : string;
  password : string;
  passwordSet : bool;
}.

(** [net/url.URL]; a [*url.URL] is an [option URL]. *)
Record URL := {
  Scheme : string;
  Opaque : string;
  User : option Userinfo;
  Host : string;
  Path : string;
  RawPath : string;
  ForceQuery : bool;
  RawQuery : string;
  Fragment : string;
  RawFragment : string;
}.

End url.
Import url.

(** [net/http.Response], as far as the dispatcher reads it. *)
Record Response := {
  StatusCode : Z;
  ResponseHeader : Header;
  Body : string;
}.

(** The result of a Go call returning [(value, error)]. *)
Inductive result (A : Type) :=
| Ok (a : A)
| Err (err : error).
Arguments Ok {A} a.
Arguments Err {A} err.

(** [binding.Message]: the two methods of the interface the dispatcher
    calls.  [Finish m err] is the error returned by [m.Finish(err)]; that
    the message has been released is recorded in the [World]. *)
Class BindingMessage (Message : Type) := {
  ReadEncoding : Message -> Encoding;
  Finish : Message -> option error -> option error;
}.

(** The same messages with a [Finish] that never fails. *)
Definition releaseAlwaysSucceeds {Message} (B : BindingMessage Message)
  : BindingMessage Message :=
  {| ReadEncoding := @ReadEncoding _ B; Finish := fun _ _ => None |}.

(** An outgoing [*nethttp.Request]: its target and what has been written
    into it. *)
Record Request (Message : Type) := {
  Target : string;
  Event : option Message;
  AdditionalHeaders : Header;
}.
Arguments Target {Message} _.
Arguments Event {Message} _.
Arguments AdditionalHeaders {Message} _.

(** One call of [executeRequest]: its arguments and what it returned. *)
Record Exchange (Message : Type) := {
  exchange_url : URL;
  exchange_message : option Message;
  exchange_headers : Header;
  exchange_response : option Message;
  exchange_response_headers : Header;
  exchange_err : option error;
}.
Arguments exchange_url {Message} _.
Arguments exchange_message {Message} _.
Arguments exchange_headers {Message} _.
Arguments exchange_response {Message} _.
Arguments exchange_response_headers {Message} _.
Arguments exchange_err {Message} _.

(** What has happened so far, oldest first: the exchanges performed, and
    the messages released, each with what its [Finish] returned. *)
Record World (Message : Type) := {
  exchanges : list (Exchange Message);
  finished : list (Message * option error);
}.
Arguments exchanges {Message} _.
Arguments finished {Message} _.

(** [kncloudevents.HttpMessageSender]: building a request for a target
    and sending it.  [Send] sees the exchanges made before. *)
Record HttpMessageSender (Message : Type) := {
  NewCloudEventRequestWithTarget : string -> result (Request Message);
  Send : list (Exchange Message) -> Request Message -> result Response;
}.
Arguments NewCloudEventRequestWithTarget {Message} _ _.
Arguments Send {Message} _ _ _.

(** Functions of other packages that the dispatcher calls. *)
Class Collaborators (Message : Type) := {
  (** The [String] method of [net/url.URL] *)
  URL_String : URL -> string;
  (** [kncloudevents.WriteHttpRequestWithAdditionalHeaders]: the error it
      returns, if any; on success the request carries the message and the
      headers.  It sees the exchanges made before. *)
  WriteHttpRequestWithAdditionalHeaders :
    list (Exchange Message) -> option Message -> Request Message -> Header ->
    option error;
  (** [http.NewMessageFromHttpResponse] *)
  NewMessageFromHttpResponse : Response -> Message;
  (** [utils.PassThroughHeaders] *)
  PassThroughHeaders : Header -> Header;
}.

(** [MessageDispatcherImpl] *)
Record MessageDispatcherImpl (Message : Type) := {
  sender : HttpMessageSender Message;
  supportedSchemes : gset string;
}.
Arguments sender {Message} _.
Arguments supportedSchemes {Message} _.

(** How a call of [DispatchMessage] ends: it returns its [error], or the
    goroutine panics. *)
Inductive Outcome :=
| Returned (err : option error)
| Panicked.

(** ** The state monad over the [World] *)

Definition Eff (Message A : Type) : Type := World Message -> A * World Message.

#[global] Instance Eff_ret {Message} : MRet (Eff Message) :=
  fun A a w => (a, w).

#[global] Instance Eff_bind {Message} : MBind (Eff Message) :=
  fun A B k c w => let (a, w') := c w in k a w'.

Definition history {Message} : Eff Message (list (Exchange Message)) :=
  fun w => (exchanges w, w).

Definition record {Message} (e : Exchange Message) : Eff Message unit :=
  fun w => (tt, {| exchanges := exchanges w ++ [e]; finished := finished w |}).

Definition release {Message} (m : Message) (err : option error) : Eff Message unit :=
  fun w => (tt, {| exchanges := exchanges w; finished := finished w ++ [(m, err)] |}).

Section Dispatcher.

Context {Message : Type} {binding : BindingMessage Message}.
Context {collaborators : Collaborators Message}.

(** [NewMessageDispatcherFromConfig], given what
    [kncloudevents.NewHttpMessageSender] returned; [None] is the [nil]
    returned after [logger.Fatal]. *)
Definition NewMessageDispatcherFromConfig
    (newSender : result (HttpMessageSender Message))
  : option (MessageDispatcherImpl Message) :=
  match newSender with
  | Err _ => None
  | Ok sender =>
      Some {| sender := sender;
              supportedSchemes := {[ "http"; "https" ]} |}
  end.

(** ** [sanitizeURL] *)

Definition sanitizeURL (d : MessageDispatcherImpl Message) (u : option URL)
  : option URL :=
  match u with
  | None => None
  | Some u =>
      if bool_decide (Scheme u ∈ supportedSchemes d) then
        (* Already a URL with a known scheme. *)
        Some u
      else
        Some {| Scheme := "http";
                Opaque := "";
                User := None;
                Host := Host u;
                Path := "/";
                RawPath := "";
                ForceQuery := false;
                RawQuery := "";
                Fragment := "";
                RawFragment := "" |}
  end.

(** ** [executeRequest] *)

(** Modelled from the spec: [isFailure] of package [channel] is declared
    in a file that is not among the sources.  "Classify the response
    status code: any 2xx is success; anything else is a failure". *)
Definition isFailure (statusCode : Z) : bool :=
  negb ((200 <=? statusCode) && (statusCode <? 300)).

(** [fmt.Errorf("unexpected HTTP response, expected 2xx, got %d", code)] *)
Definition errUnexpectedStatus (statusCode : Z) : error :=
  "unexpected HTTP response, expected 2xx, got " +:+ pretty statusCode.

(** What one call returns, given the exchanges made before it. *)
Definition executeRequest_result (d : MessageDispatcherImpl Message)
    (past : list (Exchange Message)) (url : URL) (message : option Message)
    (additionalHeaders : Header)
  : option Message * Header * option error :=
  match NewCloudEventRequestWithTarget (sender d) (URL_String url) with
  | Err err => (None, None, Some err)
  | Ok req =>
      match WriteHttpRequestWithAdditionalHeaders past message req additionalHeaders with
      | Some err => (None, None, Some err)
      | None =>
          let req := {| Target := Target req;
                        Event := message;
                        AdditionalHeaders := additionalHeaders |} in
          match Send (sender d) past req with
          | Err err => (None, None, Some err)
          | Ok response =>
              if isFailure (StatusCode response) then
                (* Reject non-successful responses. *)
                (None, None, Some (errUnexpectedStatus (StatusCode response)))
              else
                let responseMessage := NewMessageFromHttpResponse response in
                if decide (ReadEncoding responseMessage = EncodingUnknown) then
                  (None, None, None)
                else
                  (Some responseMessage,
                   PassThroughHeaders (ResponseHeader response),
                   None)
          end
      end
  end.

(** The log entry of a call. *)
Definition exchanged (url : URL) (message : option Message)
    (additionalHeaders : Header) (r : option Message * Header * option error)
  : Exchange Message :=
  {| exchange_url := url;
     exchange_message := message;
     exchange_headers := additionalHeaders;
     exchange_response := r.1.1;
     exchange_response_headers := r.1.2;
     exchange_err := r.2 |}.

Definition executeRequest (d : MessageDispatcherImpl Message) (url : URL)
    (message : option Message) (additionalHeaders : Header)
  : Eff Message (option Message * Header * option error) :=
  past ← history;
  let r := executeRequest_result d past url message additionalHeaders in
  record (exchanged url message additionalHeaders r);;
  mret r.

(** ** [DispatchMessage] *)

(** [fmt.Errorf("unable to complete request to %s: %v", destination, err)] *)
Definition errDestination (destination : URL) (err : error) : error :=
  "unable to complete request to " +:+ URL_String destination +:+ ": " +:+ err.

(** [fmt.Errorf("unable to complete request to either %s (%v) or %s (%v)",
    destination, err, deadLetter, deadLetterErr)] *)
Definition errDestinationAndDeadLetter (destination : URL) (err : error)
    (deadLetter : URL) (deadLetterErr : error) : error :=
  "unable to complete request to either " +:+ URL_String destination +:+
  " (" +:+ err +:+ ") or " +:+ URL_String deadLetter +:+
  " (" +:+ deadLetterErr +:+ ")".

(** [fmt.Errorf("failed to forward reply to %s: %v", reply, err)] *)
Definition errReply (reply : URL) (err : error) : error :=
  "failed to forward reply to " +:+ URL_String reply +:+ ": " +:+ err.

(** [fmt.Errorf("failed to forward reply to %s (%v) and failed to send it
    to the dead letter sink %s (%v)", reply, err, deadLetter, deadLetterErr)] *)
Definition errReplyAndDeadLetter (reply : URL) (err : error)
    (deadLetter : URL) (deadLetterErr : error) : error :=
  "failed to forward reply to " +:+ URL_String reply +:+
  " (" +:+ err +:+ ") and failed to send it to the dead letter sink " +:+
  URL_String deadLetter +:+ " (" +:+ deadLetterErr +:+ ")".

(** [if msg != nil { messagesToFinish = append(messagesToFinish, msg) }] *)
Definition appendIfNotNil (messagesToFinish : list (option Message))
    (msg : option Message) : list (option Message) :=
  match msg with
  | Some _ => messagesToFinish ++ [msg]
  | None => messagesToFinish
  end.

(** The second half of the body, from "No response, dispatch completed"
    to the end: forwarding the carry-over message to [reply].  The URLs
    are the sanitized ones.  It returns the [error] of the call and the
    final [messagesToFinish]. *)
Definition DispatchMessage_forward (d : MessageDispatcherImpl Message)
    (initialMessage : option Message) (reply deadLetter : option URL)
    (responseMessage : option Message) (responseAdditionalHeaders : Header)
    (messagesToFinish : list (option Message))
  : Eff Message (option error * list (option Message)) :=
  match responseMessage with
  | None =>
      (* No response, dispatch completed *)
      mret (None, messagesToFinish)
  | Some _ =>
      let messagesToFinish := messagesToFinish ++ [responseMessage] in
      match reply with
      | None => mret (None, messagesToFinish)
      | Some reply =>
          '(responseResponseMessage, _, err) ←
            executeRequest d reply responseMessage responseAdditionalHeaders;
          match err with
          | Some err =>
              match deadLetter with
              | Some deadLetter =>
                  (* DeadLetter is configured, send the message to it *)
                  '(deadLetterResponse, _, deadLetterErr) ←
                    executeRequest d deadLetter initialMessage responseAdditionalHeaders;
                  match deadLetterErr with
                  | Some deadLetterErr =>
                      mret (Some (errReplyAndDeadLetter reply err deadLetter deadLetterErr),
                            messagesToFinish)
                  | None =>
                      mret (None, appendIfNotNil messagesToFinish deadLetterResponse)
                  end
              | None =>
                  (* No DeadLetter, just fail *)
                  mret (Some (errReply reply err), messagesToFinish)
              end
          | None =>
              mret (None, appendIfNotNil messagesToFinish responseResponseMessage)
          end
      end
  end.

(** The body of [DispatchMessage]: the [error] it returns and the
    [messagesToFinish] accumulated when it does. *)
Definition DispatchMessage_body (d : MessageDispatcherImpl Message)
    (initialMessage : option Message) (initialAdditionalHeaders : Header)
    (destination reply deadLetter : option URL)
  : Eff Message (option error * list (option Message)) :=
  let messagesToFinish : list (option Message) := [] in
  (* sanitize eventual host-only URLs *)
  let destination := sanitizeURL d destination in
  let reply := sanitizeURL d reply in
  let deadLetter := sanitizeURL d deadLetter in
  match destination with
  | Some destination =>
      (* Try to send to destination *)
      let messagesToFinish := messagesToFinish ++ [initialMessage] in
      '(responseMessage, responseAdditionalHeaders, err) ←
        executeRequest d destination initialMessage initialAdditionalHeaders;
      match err with
      | Some err =>
          match deadLetter with
          | Some deadLetter =>
              (* DeadLetter is configured, send the message to it *)
              '(deadLetterResponse, _, deadLetterErr) ←
                executeRequest d deadLetter initialMessage initialAdditionalHeaders;
              match deadLetterErr with
              | Some deadLetterErr =>
                  mret (Some (errDestinationAndDeadLetter
                                destination err deadLetter deadLetterErr),
                        messagesToFinish)
              | None =>
                  mret (None, appendIfNotNil messagesToFinish deadLetterResponse)
              end
          | None =>
              (* No DeadLetter, just fail *)
              mret (Some (errDestination destination err), messagesToFinish)
          end
      | None =>
          DispatchMessage_forward d initialMessage reply deadLetter
            responseMessage responseAdditionalHeaders messagesToFinish
      end
  | None =>
      (* No destination url, try to send to reply if available *)
      DispatchMessage_forward d initialMessage reply deadLetter
        initialMessage initialAdditionalHeaders messagesToFinish
  end.

(** The deferred function: [for _, msg := range messagesToFinish
    { _ = msg.Finish(nil) }].  Calling a method of a nil interface value
    panics; the result is [false] then. *)
Fixpoint finishAll (messagesToFinish : list (option Message))
  : Eff Message bool :=
  match messagesToFinish with
  | [] => mret true
  | None :: _ => mret false
  | Some msg :: messagesToFinish =>
      release msg (Finish msg None);;
      finishAll messagesToFinish
  end.

Definition DispatchMessage (d : MessageDispatcherImpl Message)
    (initialMessage : option Message) (initialAdditionalHeaders : Header)
    (destination reply deadLetter : option URL)
  : Eff Message Outcome :=
  '(err, messagesToFinish) ←
    DispatchMessage_body d initialMessage initialAdditionalHeaders
      destination reply deadLetter;
  completed ← finishAll messagesToFinish;
  mret (if completed : bool then Returned err else Panicked).

(** The carry-over of the destination hop, the message and headers that
    the second half of the body starts from: the original ones when there
    is no destination, the response of the destination when its exchange
    succeeded.  [w1] is the world after the hop. *)
Definition CarryOver (d : MessageDispatcherImpl Message)
    (initialMessage : option Message) (initialAdditionalHeaders : Header)
    (destination : option URL) (w : World Message)
    (responseMessage : option Message) (responseAdditionalHeaders : Header)
    (w1 : World Message) : Prop :=
  match sanitizeURL d destination with
  | Some destination =>
      executeRequest d destination initialMessage initialAdditionalHeaders w =
        ((responseMessage, responseAdditionalHeaders, None), w1)
  | None =>
      responseMessage = initialMessage /\
      responseAdditionalHeaders = initialAdditionalHeaders /\
      w1 = w
  end.

(** The world after the deferred function has released [tracked]. *)
Definition released (tracked : list Message) (w : World Message) : World Message :=
  {| exchanges := exchanges w;
     finished := finished w ++ ((fun msg => (msg, Finish msg None)) <$> tracked) |}.

(** The messages received in answer during some exchanges. *)
Definition responses (new : list (Exchange Message)) : list Message :=
  omap exchange_response new.

(** The working set when the carry-over [c] has been appended: [c] alone
    without a destination (it is the inbound message), the inbound
    message [m] and then [c] with one. *)
Definition carried (d : MessageDispatcherImpl Message) (destination : option URL)
    (m c : Message) : list Message :=
  match sanitizeURL d destination with
  | Some _ => [m; c]
  | None => [c]
  end.

(** The error returned after a dead-letter attempt that followed a
    failure reported as [composite]: [nil] if the sink accepted. *)
Definition afterDeadLetter (composite : error -> error) (deadLetterErr : option error)
  : option error :=
  match deadLetterErr with
  | Some deadLetterErr => Some (composite deadLetterErr)
  | None => None
  end.

(** A log entry that records what [executeRequest] returns for its
    arguments after some exchanges [past]. *)
Definition genuine (d : MessageDispatcherImpl Message) (e : Exchange Message)
  : Prop :=
  exists past,
    executeRequest_result d past (exchange_url e) (exchange_message e)
      (exchange_headers e) =
    (exchange_response e, exchange_response_headers e, exchange_err e).

(** The exchanges made from the world [before] to the world [after]. *)
Definition performed (before after : World Message) : list (Exchange Message) :=
  drop (length (exchanges before)) (exchanges after).

(** The runs of the second half of the body from the carry-over [cm],
    [ch]: the exchanges made, in order, and the [error] returned.  The
    URLs are the sanitized ones. *)
Inductive Forwarded (initialMessage : option Message)
    (reply deadLetter : option URL) (cm : option Message) (ch : Header)
  : list (Exchange Message) -> option error -> Prop :=
| forwarded_nothing :
    cm = None ->
    Forwarded initialMessage reply deadLetter cm ch [] None
| forwarded_no_reply c :
    cm = Some c -> reply = None ->
    Forwarded initialMessage reply deadLetter cm ch [] None
| forwarded_replied c rep rr rh :
    cm = Some c -> reply = Some rep ->
    Forwarded initialMessage reply deadLetter cm ch
      [exchanged rep cm ch (rr, rh, None)] None
| forwarded_reply_failed c rep err :
    cm = Some c -> reply = Some rep -> deadLetter = None ->
    Forwarded initialMessage reply deadLetter cm ch
      [exchanged rep cm ch (None, None, Some err)]
      (Some (errReply rep err))
| forwarded_dead_letter c rep dl err dlm dlh dlErr :
    cm = Some c -> reply = Some rep -> deadLetter = Some dl ->
    Forwarded initialMessage reply deadLetter cm ch
      [exchanged rep cm ch (None, None, Some err);
       exchanged dl initialMessage ch (dlm, dlh, dlErr)]
      (afterDeadLetter (errReplyAndDeadLetter rep err dl) dlErr).

(** The runs of the whole body. *)
Inductive Dispatched (initialMessage : option Message) (h : Header)
    (destination reply deadLetter : option URL)
  : list (Exchange Message) -> option error -> Prop :=
| dispatched_destination_failed dest err :
    destination = Some dest -> deadLetter = None ->
    Dispatched initialMessage h destination reply deadLetter
      [exchanged dest initialMessage h (None, None, Some err)]
      (Some (errDestination dest err))
| dispatched_destination_dead_letter dest dl err dlm dlh dlErr :
    destination = Some dest -> deadLetter = Some dl ->
    Dispatched initialMessage h destination reply deadLetter
      [exchanged dest initialMessage h (None, None, Some err);
       exchanged dl initialMessage h (dlm, dlh, dlErr)]
      (afterDeadLetter (errDestinationAndDeadLetter dest err dl) dlErr)
| dispatched_destination_answered dest cm ch new err :
    destination = Some dest ->
    Forwarded initialMessage reply deadLetter cm ch new err ->
    Dispatched initialMessage h destination reply deadLetter
      (exchanged dest initialMessage h (cm, ch, None) :: new) err
| dispatched_no_destination new err :
    destination = None ->
    Forwarded initialMessage reply deadLetter initialMessage h new err ->
    Dispatched initialMessage h destination reply deadLetter new err.

End Dispatcher.

(** ** Test doubles

    A release-counting fake message and a scripted receiver, used to run
    the dispatcher on concrete inputs. *)

Module Fake.

Record Msg := {
  payload : string;
  encoding : Encoding;
  finishErr : option error;
}.

#[export] Instance binding : BindingMessage Msg :=
  {| ReadEncoding := encoding; Finish := fun m _ => finishErr m |}.

(** A response with a body is a structured event; a bare acknowledgement
    is not an event.  [URL_String] writes scheme, host and path, which is
    the text of the URLs used below. *)
#[export] Instance collaborators : Collaborators Msg :=
  {| URL_String := fun u => Scheme u +:+ "://" +:+ Host u +:+ Path u;
     WriteHttpRequestWithAdditionalHeaders := fun _ _ _ _ => None;
     NewMessageFromHttpResponse := fun r =>
       {| payload := Body r;
          encoding := if decide (Body r = "") then EncodingUnknown
                      else EncodingStructured;
          finishErr := None |};
     PassThroughHeaders := fun h => h |}.

(** A receiver answering by target; an unknown target refuses the
    connection. *)
Definition server (routes : gmap string Response) : HttpMessageSender Msg :=
  {| NewCloudEventRequestWithTarget := fun target =>
       Ok {| Target := target; Event := None; AdditionalHeaders := None |};
     Send := fun _ req =>
       match routes !! Target req with
       | Some response => Ok response
       | None => Err "connection refused"
       end |}.

Definition dispatcher (routes : gmap string Response) : MessageDispatcherImpl Msg :=
  {| sender := server routes; supportedSchemes := {[ "http"; "https" ]} |}.

Definition target (scheme host : string) : URL :=
  {| Scheme := scheme; Opaque := ""; User := None; Host := host; Path := "/";
     RawPath := ""; ForceQuery := false; RawQuery := ""; Fragment := "";
     RawFragment := "" |}.

Definition D : URL := target "http" "destination".
Definition R : URL := target "http" "reply".
Definition DL : URL := target "http" "deadletter".

Definition respond (code : Z) (h : Header) (body : string) : Response :=
  {| StatusCode := code; ResponseHeader := h; Body := body |}.

Definition traceparent : Header := Some {[ "Traceparent" := ["00-abc"] ]}.
Definition inboundHeaders : Header := Some {[ "X-Request-Id" := ["1"] ]}.

(** The inbound message; its release fails. *)
Definition inbound : Msg :=
  {| payload := "inbound"; encoding := EncodingBinary;
     finishErr := Some "already closed" |}.

Definition start : World Msg := {| exchanges := []; finished := [] |}.

(** The destination answers with an event, the reply sink rejects it, the
    dead-letter sink accepts. *)
Definition replyRejects : gmap string Response :=
  {[ "http://destination/" := respond 200 traceparent "answer";
     "http://reply/" := respond 503 None "";
     "http://deadletter/" := respond 202 None "" ]}.

(** The destination rejects, the dead-letter sink accepts. *)
Definition destinationRejects : gmap string Response :=
  {[ "http://destination/" := respond 500 None "";
     "http://deadletter/" := respond 200 None "" ]}.

(** Every receiver rejects. *)
Definition allReject : gmap string Response :=
  {[ "http://destination/" := respond 500 None "";
     "http://reply/" := respond 503 None "";
     "http://deadletter/" := respond 404 None "" ]}.

(** The destination acknowledges with a bare 200. *)
Definition destinationAcknowledges : gmap string Response :=
  {[ "http://destination/" := respond 200 traceparent "";
     "http://reply/" := respond 200 None "" ]}.

(** The event the destination of [replyRejects] answers with. *)
Definition answer : Msg :=
  {| payload := "answer"; encoding := EncodingStructured; finishErr := None |}.

(** A routing hint: a host with credentials, a path and a query, and no
    scheme. *)
Definition hostOnly : URL :=
  {| Scheme := ""; Opaque := "";
     User := Some {| username := "u"; password := "p"; passwordSet := true |};
     Host := "h"; Path := "/some/path"; RawPath := ""; ForceQuery := false;
     RawQuery := "q=1"; Fragment := "top"; RawFragment := "" |}.

(** The request [server] builds for the destination. *)
Definition request : Request Msg :=
  {| Target := "http://destination/"; Event := None; AdditionalHeaders := None |}.

End Fake.

(** * Properties *)

Section Properties.

Context {Message : Type} {binding : BindingMessage Message}.
Context {collaborators : Collaborators Message}.

Implicit Types (d : MessageDispatcherImpl Message) (w : World Message).
Implicit Types (m : Message) (h : Header) (u : URL).
Implicit Types (initialMessage : option Message).
Implicit Types (destination reply deadLetter : option URL).

(** ** One exchange *)

Lemma executeRequest_run d u initialMessage h w :
  executeRequest d u initialMessage h w =
    (executeRequest_result d (exchanges w) u initialMessage h,
     {| exchanges := exchanges w ++
          [exchanged u initialMessage h
             (executeRequest_result d (exchanges w) u initialMessage h)];
        finished := finished w |}).
Proof. reflexivity. Qed.

Lemma executeRequest_exchanges d u initialMessage h w r w1 :
  executeRequest d u initialMessage h w = (r, w1) ->
  exchanges w1 = exchanges w ++ [exchanged u initialMessage h r] /\
  finished w1 = finished w.
Proof. rewrite executeRequest_run. intros [= <- <-]. done. Qed.

Lemma executeRequest_result_headers d past u initialMessage h :
  (executeRequest_result d past u initialMessage h).1.1 = None ->
  (executeRequest_result d past u initialMessage h).1.2 = None.
Proof.
  unfold executeRequest_result.
  repeat case_match; simpl; congruence.
Qed.

(** ** The deferred release *)

Lemma finishAll_tracked (tracked : list Message) w :
  finishAll (Some <$> tracked) w = (true, released tracked w).
Proof.
  revert w. induction tracked as [|msg tracked IH]; intros w.
  - destruct w. unfold released. simpl. by rewrite app_nil_r.
  - simpl. unfold mbind, Eff_bind, release. simpl. rewrite IH.
    unfold released. simpl. by rewrite <- app_assoc.
Qed.

Lemma DispatchMessage_of_body d initialMessage h destination reply deadLetter
    w err (tracked : list Message) w1 :
  DispatchMessage_body d initialMessage h destination reply deadLetter w =
    ((err, Some <$> tracked), w1) ->
  DispatchMessage d initialMessage h destination reply deadLetter w =
    (Returned err, released tracked w1).
Proof.
  intros Hbody. unfold DispatchMessage, mbind, Eff_bind.
  rewrite Hbody, finishAll_tracked. reflexivity.
Qed.

(** ** The paths through the body

    Each lemma follows one path of the source, given what the exchanges
    on it return. *)

Ltac step_body :=
  unfold DispatchMessage_body, DispatchMessage_forward, CarryOver,
    mbind, mret, Eff_bind, Eff_ret in *.

(** The destination fails and there is no dead-letter sink. *)
Lemma body_destination_failed d initialMessage h destination reply deadLetter
    w dest rm rh err w1 :
  sanitizeURL d destination = Some dest ->
  sanitizeURL d deadLetter = None ->
  executeRequest d dest initialMessage h w = ((rm, rh, Some err), w1) ->
  DispatchMessage_body d initialMessage h destination reply deadLetter w =
    ((Some (errDestination dest err), [initialMessage]), w1).
Proof. intros Hd Hdl He. step_body. by rewrite Hd, Hdl, He. Qed.

(** The destination fails and the dead-letter sink is tried. *)
Lemma body_destination_dead_letter d initialMessage h destination reply
    deadLetter w dest dl rm rh err w1 dlm dlh dlErr w2 :
  sanitizeURL d destination = Some dest ->
  sanitizeURL d deadLetter = Some dl ->
  executeRequest d dest initialMessage h w = ((rm, rh, Some err), w1) ->
  executeRequest d dl initialMessage h w1 = ((dlm, dlh, dlErr), w2) ->
  DispatchMessage_body d initialMessage h destination reply deadLetter w =
    (match dlErr with
     | Some dlErr =>
         (Some (errDestinationAndDeadLetter dest err dl dlErr), [initialMessage])
     | None => (None, appendIfNotNil [initialMessage] dlm)
     end, w2).
Proof.
  intros Hd Hdl He He2. step_body. rewrite Hd, Hdl, He, He2.
  by destruct dlErr.
Qed.

(** No destination, or a destination that answered: the body goes on
    with the carry-over. *)
Lemma body_carry_over d initialMessage h destination reply deadLetter
    w cm ch w1 :
  CarryOver d initialMessage h destination w cm ch w1 ->
  DispatchMessage_body d initialMessage h destination reply deadLetter w =
    DispatchMessage_forward d initialMessage
      (sanitizeURL d reply) (sanitizeURL d deadLetter) cm ch
      (match sanitizeURL d destination with
       | Some _ => [initialMessage]
       | None => []
       end) w1.
Proof.
  unfold CarryOver, DispatchMessage_body.
  destruct (sanitizeURL d destination) as [dest|].
  - intros He. unfold mbind, Eff_bind. by rewrite He.
  - by intros (-> & -> & ->).
Qed.

(** Nothing to forward. *)
Lemma forward_nothing d initialMessage reply deadLetter ch acc w :
  DispatchMessage_forward d initialMessage reply deadLetter None ch acc w =
    ((None, acc), w).
Proof. reflexivity. Qed.

(** A response and no reply sink. *)
Lemma forward_no_reply d initialMessage deadLetter c ch acc w :
  DispatchMessage_forward d initialMessage None deadLetter (Some c) ch acc w =
    ((None, acc ++ [Some c]), w).
Proof. reflexivity. Qed.

(** The reply sink accepts. *)
Lemma forward_replied d initialMessage deadLetter rep c ch acc w rr rh w1 :
  executeRequest d rep (Some c) ch w = ((rr, rh, None), w1) ->
  DispatchMessage_forward d initialMessage (Some rep) deadLetter (Some c) ch acc w =
    ((None, appendIfNotNil (acc ++ [Some c]) rr), w1).
Proof. intros He. step_body. by rewrite He. Qed.

(** The reply sink fails and there is no dead-letter sink. *)
Lemma forward_reply_failed d initialMessage rep c ch acc w rr rh err w1 :
  executeRequest d rep (Some c) ch w = ((rr, rh, Some err), w1) ->
  DispatchMessage_forward d initialMessage (Some rep) None (Some c) ch acc w =
    ((Some (errReply rep err), acc ++ [Some c]), w1).
Proof. intros He. step_body. by rewrite He. Qed.

(** The reply sink fails and the dead-letter sink is tried. *)
Lemma forward_reply_dead_letter d initialMessage rep dl c ch acc w rr rh err w1
    dlm dlh dlErr w2 :
  executeRequest d rep (Some c) ch w = ((rr, rh, Some err), w1) ->
  executeRequest d dl initialMessage ch w1 = ((dlm, dlh, dlErr), w2) ->
  DispatchMessage_forward d initialMessage (Some rep) (Some dl) (Some c) ch acc w =
    (match dlErr with
     | Some dlErr =>
         (Some (errReplyAndDeadLetter rep err dl dlErr), acc ++ [Some c])
     | None => (None, appendIfNotNil (acc ++ [Some c]) dlm)
     end, w2).
Proof.
  intros He He2. step_body. rewrite He, He2. by destruct dlErr.
Qed.

Lemma appendIfNotNil_tracked (tracked : list Message) (msg : option Message) :
  appendIfNotNil (Some <$> tracked) msg =
    Some <$> (tracked ++ option_list msg).
Proof.
  destruct msg as [x|]; simpl.
  - by rewrite fmap_app.
  - by rewrite app_nil_r.
Qed.

Lemma executeRequest_result_error d past u initialMessage h err :
  (executeRequest_result d past u initialMessage h).2 = Some err ->
  (executeRequest_result d past u initialMessage h).1.1 = None.
Proof.
  unfold executeRequest_result.
  repeat case_match; simpl; congruence.
Qed.

Lemma executeRequest_failed d u initialMessage h w rm rh err w1 :
  executeRequest d u initialMessage h w = ((rm, rh, Some err), w1) ->
  rm = None.
Proof.
  rewrite executeRequest_run. intros [= Hr _].
  pose proof (executeRequest_result_error d (exchanges w) u initialMessage h err) as H.
  rewrite Hr in H. by apply H.
Qed.

Lemma responses_exchanged u initialMessage h rm rh err :
  responses [exchanged u initialMessage h (rm, rh, err)] = option_list rm.
Proof. by destruct rm. Qed.

Lemma responses_app (new1 new2 : list (Exchange Message)) :
  responses (new1 ++ new2) = responses new1 ++ responses new2.
Proof. apply omap_app. Qed.

(** Closes the bookkeeping goals on the working set and the log. *)
Ltac tidy :=
  unfold appendIfNotNil, responses; simpl;
  repeat match goal with
         | |- context [match ?x with Some _ => _ | None => _ end] => destruct x
         end;
  simpl; rewrite ?fmap_app, <- ?app_assoc, ?app_nil_r; simpl;
  repeat split; auto with lia.

(** Whatever the exchanges return, the second half of the body ends: it
    has made at most two exchanges, has released nothing itself, and has
    added the carry-over and every response received to the working
    set. *)
Lemma DispatchMessage_forward_runs d initialMessage reply deadLetter cm ch
    (acc : list Message) w :
  exists err new w1,
    DispatchMessage_forward d initialMessage reply deadLetter cm ch
      (Some <$> acc) w =
      ((err, Some <$> (acc ++ option_list cm ++ responses new)), w1) /\
    exchanges w1 = exchanges w ++ new /\
    finished w1 = finished w /\
    (length new <= 2)%nat.
Proof.
  destruct cm as [c|].
  2:{ exists None, [], w. rewrite forward_nothing. tidy. }
  destruct reply as [rep|].
  2:{ exists None, [], w. rewrite forward_no_reply. tidy. }
  destruct (executeRequest d rep (Some c) ch w) as [[[rr rh] [err|]] w1] eqn:He.
  2:{ exists None, [exchanged rep (Some c) ch (rr, rh, None)], w1.
      rewrite (forward_replied _ _ _ _ _ _ _ _ _ _ _ He).
      apply executeRequest_exchanges in He as [Hx1 Hf1].
      rewrite ?Hx1, ?Hf1. tidy. }
  pose proof (executeRequest_failed _ _ _ _ _ _ _ _ _ He) as ->.
  destruct deadLetter as [dl|].
  2:{ exists (Some (errReply rep err)),
        [exchanged rep (Some c) ch (None, rh, Some err)], w1.
      rewrite (forward_reply_failed _ _ _ _ _ _ _ _ _ _ _ He).
      apply executeRequest_exchanges in He as [Hx1 Hf1].
      rewrite ?Hx1, ?Hf1. tidy. }
  destruct (executeRequest d dl initialMessage ch w1)
    as [[[dlm dlh] dlErr] w2] eqn:He2.
  exists (match dlErr with
          | Some dlErr => Some (errReplyAndDeadLetter rep err dl dlErr)
          | None => None
          end),
    [exchanged rep (Some c) ch (None, rh, Some err);
     exchanged dl initialMessage ch (dlm, dlh, dlErr)], w2.
  rewrite (forward_reply_dead_letter _ _ _ _ _ _ _ _ _ _ _ _ _ _ _ _ He He2).
  assert (dlErr <> None -> dlm = None) as Hdlm.
  { destruct dlErr as [e|]; [|done]. intros _.
    by apply (executeRequest_failed _ _ _ _ _ _ _ _ _ He2). }
  apply executeRequest_exchanges in He as [Hx1 Hf1].
  apply executeRequest_exchanges in He2 as [Hx2 Hf2].
  rewrite ?Hx2, ?Hf2, ?Hx1, ?Hf1.
  destruct dlErr as [e|]; [rewrite Hdlm by done|]; tidy.
Qed.

(** Whatever the exchanges return, the body ends: it has made at most
    three exchanges, has released nothing itself, and its working set is
    the inbound message followed by every response received. *)
Lemma DispatchMessage_body_runs d m h destination reply deadLetter w :
  exists err new w1,
    DispatchMessage_body d (Some m) h destination reply deadLetter w =
      ((err, Some <$> (m :: responses new)), w1) /\
    exchanges w1 = exchanges w ++ new /\
    finished w1 = finished w /\
    (length new <= 3)%nat.
Proof.
  destruct (sanitizeURL d destination) as [dest|] eqn:Hd.
  2:{ destruct (DispatchMessage_forward_runs d (Some m) (sanitizeURL d reply)
        (sanitizeURL d deadLetter) (Some m) h [] w)
        as (err & new & w1 & Hf & Hx & Hfin & Hlen).
      exists err, new, w1.
      rewrite (body_carry_over d (Some m) h destination reply deadLetter
                 w (Some m) h w); [|unfold CarryOver; by rewrite Hd].
      rewrite Hd. auto with lia. }
  destruct (executeRequest d dest (Some m) h w) as [[[rm rh] [err|]] w1] eqn:He.
  2:{ destruct (DispatchMessage_forward_runs d (Some m) (sanitizeURL d reply)
        (sanitizeURL d deadLetter) rm rh [m] w1)
        as (err & new & w2 & Hf & Hx & Hfin & Hlen).
      exists err, (exchanged dest (Some m) h (rm, rh, None) :: new), w2.
      rewrite (body_carry_over d (Some m) h destination reply deadLetter
                 w rm rh w1); [|unfold CarryOver; by rewrite Hd].
      rewrite Hd.
      apply executeRequest_exchanges in He as [Hx1 Hf1].
      change (Some <$> [m]) with [Some m] in Hf.
      rewrite Hx, Hf, Hfin, Hx1, Hf1. clear Hf. tidy. }
  pose proof (executeRequest_failed _ _ _ _ _ _ _ _ _ He) as ->.
  destruct (sanitizeURL d deadLetter) as [dl|] eqn:Hdl.
  2:{ exists (Some (errDestination dest err)),
        [exchanged dest (Some m) h (None, rh, Some err)], w1.
      rewrite (body_destination_failed _ _ _ _ reply _ _ _ _ _ _ _ Hd Hdl He).
      apply executeRequest_exchanges in He as [Hx1 Hf1].
      rewrite ?Hx1, ?Hf1. tidy. }
  destruct (executeRequest d dl (Some m) h w1)
    as [[[dlm dlh] dlErr] w2] eqn:He2.
  exists (match dlErr with
          | Some dlErr => Some (errDestinationAndDeadLetter dest err dl dlErr)
          | None => None
          end),
    [exchanged dest (Some m) h (None, rh, Some err);
     exchanged dl (Some m) h (dlm, dlh, dlErr)], w2.
  rewrite (body_destination_dead_letter _ _ _ _ reply _ _ _ _ _ _ _ _ _ _ _ _
             Hd Hdl He He2).
  assert (dlErr <> None -> dlm = None) as Hdlm.
  { destruct dlErr as [e|]; [|done]. intros _.
    by apply (executeRequest_failed _ _ _ _ _ _ _ _ _ He2). }
  apply executeRequest_exchanges in He as [Hx1 Hf1].
  apply executeRequest_exchanges in He2 as [Hx2 Hf2].
  rewrite ?Hx2, ?Hf2, ?Hx1, ?Hf1.
  destruct dlErr as [e|]; [rewrite Hdlm by done|]; tidy.
Qed.

(** ** The paths through [DispatchMessage] *)

Lemma finishAll_exchanges (l : list (option Message)) w :
  exchanges (finishAll l w).2 = exchanges w.
Proof.
  revert w. induction l as [|[msg|] l IH]; intros w; try done.
  simpl. unfold mbind, Eff_bind, release. simpl. by rewrite IH.
Qed.

Lemma DispatchMessage_exchanges d initialMessage h destination reply deadLetter w :
  exchanges (DispatchMessage d initialMessage h destination reply deadLetter w).2 =
  exchanges (DispatchMessage_body d initialMessage h destination reply deadLetter w).2.
Proof.
  unfold DispatchMessage, mbind, Eff_bind.
  destruct (DispatchMessage_body _ _ _ _ _ _ _) as [[err l] w1].
  pose proof (finishAll_exchanges l w1) as H.
  destruct (finishAll l w1) as [[] w2]; simpl in *; done.
Qed.

Lemma DispatchMessage_destination_failed d m h destination reply deadLetter
    w dest rm rh err w1 :
  sanitizeURL d destination = Some dest ->
  sanitizeURL d deadLetter = None ->
  executeRequest d dest (Some m) h w = ((rm, rh, Some err), w1) ->
  DispatchMessage d (Some m) h destination reply deadLetter w =
    (Returned (Some (errDestination dest err)), released [m] w1).
Proof.
  intros Hd Hdl He. apply DispatchMessage_of_body.
  by rewrite (body_destination_failed _ _ _ _ reply _ _ _ _ _ _ _ Hd Hdl He).
Qed.

Lemma DispatchMessage_destination_dead_letter d m h destination reply deadLetter
    w dest dl rm rh err w1 dlm dlh dlErr w2 :
  sanitizeURL d destination = Some dest ->
  sanitizeURL d deadLetter = Some dl ->
  executeRequest d dest (Some m) h w = ((rm, rh, Some err), w1) ->
  executeRequest d dl (Some m) h w1 = ((dlm, dlh, dlErr), w2) ->
  DispatchMessage d (Some m) h destination reply deadLetter w =
    (Returned (afterDeadLetter (errDestinationAndDeadLetter dest err dl) dlErr),
     released (m :: option_list dlm) w2).
Proof.
  intros Hd Hdl He He2. apply DispatchMessage_of_body.
  rewrite (body_destination_dead_letter _ _ _ _ reply _ _ _ _ _ _ _ _ _ _ _ _
             Hd Hdl He He2).
  destruct dlErr as [e|]; simpl.
  - by rewrite (executeRequest_failed _ _ _ _ _ _ _ _ _ He2).
  - by destruct dlm.
Qed.

Lemma body_carried d m h destination reply deadLetter w c ch w1 :
  CarryOver d (Some m) h destination w (Some c) ch w1 ->
  DispatchMessage_body d (Some m) h destination reply deadLetter w =
    DispatchMessage_forward d (Some m)
      (sanitizeURL d reply) (sanitizeURL d deadLetter) (Some c) ch
      (Some <$> removelast (carried d destination m c)) w1.
Proof.
  intros Hc. rewrite (body_carry_over _ _ _ _ _ _ _ _ _ _ Hc).
  unfold carried. by destruct (sanitizeURL d destination).
Qed.

Lemma carried_removelast d destination m c :
  (Some <$> removelast (carried d destination m c)) ++ [Some c] =
  Some <$> carried d destination m c.
Proof. unfold carried. by destruct (sanitizeURL d destination). Qed.

Lemma DispatchMessage_nothing_to_forward d m h destination reply deadLetter
    w dest rh w1 :
  sanitizeURL d destination = Some dest ->
  executeRequest d dest (Some m) h w = ((None, rh, None), w1) ->
  DispatchMessage d (Some m) h destination reply deadLetter w =
    (Returned None, released [m] w1).
Proof.
  intros Hd He. apply DispatchMessage_of_body.
  rewrite (body_carry_over d (Some m) h destination reply deadLetter w None rh w1);
    [|unfold CarryOver; by rewrite Hd].
  by rewrite forward_nothing, Hd.
Qed.

Lemma DispatchMessage_no_reply d m h destination reply deadLetter w c ch w1 :
  CarryOver d (Some m) h destination w (Some c) ch w1 ->
  sanitizeURL d reply = None ->
  DispatchMessage d (Some m) h destination reply deadLetter w =
    (Returned None, released (carried d destination m c) w1).
Proof.
  intros Hc Hr. apply DispatchMessage_of_body.
  rewrite (body_carried _ _ _ _ _ _ _ _ _ _ Hc), Hr, forward_no_reply.
  by rewrite carried_removelast.
Qed.

Lemma DispatchMessage_replied d m h destination reply deadLetter w c ch w1
    rep rr rh w2 :
  CarryOver d (Some m) h destination w (Some c) ch w1 ->
  sanitizeURL d reply = Some rep ->
  executeRequest d rep (Some c) ch w1 = ((rr, rh, None), w2) ->
  DispatchMessage d (Some m) h destination reply deadLetter w =
    (Returned None, released (carried d destination m c ++ option_list rr) w2).
Proof.
  intros Hc Hr He. apply DispatchMessage_of_body.
  rewrite (body_carried _ _ _ _ _ _ _ _ _ _ Hc), Hr.
  rewrite (forward_replied _ _ _ _ _ _ _ _ _ _ _ He).
  by rewrite carried_removelast, appendIfNotNil_tracked.
Qed.

Lemma DispatchMessage_reply_failed d m h destination reply deadLetter w c ch w1
    rep rr rh err w2 :
  CarryOver d (Some m) h destination w (Some c) ch w1 ->
  sanitizeURL d reply = Some rep ->
  sanitizeURL d deadLetter = None ->
  executeRequest d rep (Some c) ch w1 = ((rr, rh, Some err), w2) ->
  DispatchMessage d (Some m) h destination reply deadLetter w =
    (Returned (Some (errReply rep err)), released (carried d destination m c) w2).
Proof.
  intros Hc Hr Hdl He. apply DispatchMessage_of_body.
  rewrite (body_carried _ _ _ _ _ _ _ _ _ _ Hc), Hr, Hdl.
  rewrite (forward_reply_failed _ _ _ _ _ _ _ _ _ _ _ He).
  by rewrite carried_removelast.
Qed.

Lemma DispatchMessage_reply_dead_letter d m h destination reply deadLetter
    w c ch w1 rep dl rr rh err w2 dlm dlh dlErr w3 :
  CarryOver d (Some m) h destination w (Some c) ch w1 ->
  sanitizeURL d reply = Some rep ->
  sanitizeURL d deadLetter = Some dl ->
  executeRequest d rep (Some c) ch w1 = ((rr, rh, Some err), w2) ->
  executeRequest d dl (Some m) ch w2 = ((dlm, dlh, dlErr), w3) ->
  DispatchMessage d (Some m) h destination reply deadLetter w =
    (Returned (afterDeadLetter (errReplyAndDeadLetter rep err dl) dlErr),
     released (carried d destination m c ++ option_list dlm) w3).
Proof.
  intros Hc Hr Hdl He He2. apply DispatchMessage_of_body.
  rewrite (body_carried _ _ _ _ _ _ _ _ _ _ Hc), Hr, Hdl.
  rewrite (forward_reply_dead_letter _ _ _ _ _ _ _ _ _ _ _ _ _ _ _ _ He He2).
  rewrite carried_removelast.
  destruct dlErr as [e|]; simpl.
  - rewrite (executeRequest_failed _ _ _ _ _ _ _ _ _ He2). simpl.
    by rewrite app_nil_r.
  - by rewrite appendIfNotNil_tracked.
Qed.

Lemma DispatchMessage_body_exchanges d initialMessage h destination reply
    deadLetter w :
  exists new,
    exchanges (DispatchMessage_body d initialMessage h destination reply
                 deadLetter w).2 = exchanges w ++ new /\
    (length new <= 3)%nat.
Proof.
  unfold DispatchMessage_body, DispatchMessage_forward, mbind, mret,
    Eff_bind, Eff_ret.
  destruct (sanitizeURL d destination), (sanitizeURL d reply),
    (sanitizeURL d deadLetter), initialMessage;
    repeat (rewrite executeRequest_run; cbn [exchanges finished];
            match goal with
            | |- context [executeRequest_result ?d ?p ?u ?im ?hh] =>
                destruct (executeRequest_result d p u im hh) as [[[?|] ?] [?|]]
            end);
    cbn [fst snd exchanges]; rewrite <- ?app_assoc;
    first [ by exists [] ; rewrite app_nil_r; simpl; auto with lia
          | eexists; split; [reflexivity | simpl; lia] ].
Qed.

(** A [nil] inbound message with a destination is appended to the
    working set as it is, and the deferred function panics on it. *)
Lemma DispatchMessage_nil_inbound d h destination reply deadLetter w dest :
  sanitizeURL d destination = Some dest ->
  (DispatchMessage d None h destination reply deadLetter w).1 = Panicked.
Proof.
  intros Hd.
  unfold DispatchMessage, DispatchMessage_body, DispatchMessage_forward,
    appendIfNotNil, mbind, mret, Eff_bind, Eff_ret.
  rewrite Hd.
  destruct (sanitizeURL d reply), (sanitizeURL d deadLetter);
    repeat (rewrite executeRequest_run; cbn [exchanges finished];
            match goal with
            | |- context [executeRequest_result ?d ?p ?u ?im ?hh] =>
                destruct (executeRequest_result d p u im hh) as [[[?|] ?] [?|]]
            end);
    reflexivity.
Qed.

End Properties.

(** * The delivery contract *)

Section Contract.

Context {Message : Type} {binding : BindingMessage Message}.
Context {collaborators : Collaborators Message}.

Implicit Types (d : MessageDispatcherImpl Message) (w : World Message).
Implicit Types (m : Message) (h : Header) (u : URL).
Implicit Types (initialMessage : option Message).
Implicit Types (destination reply deadLetter : option URL).


(** C1.  Whatever the targets and whatever the exchanges return, a call
    with an inbound message returns, and when it does the messages
    released during the call are exactly the entries of its working set
    [messagesToFinish], each once and in the order they were appended:
    the body has released nothing, the deferred function has released
    every entry.  The error returned is the one the body computed, also
    when releases fail: it is the same as with messages whose [Finish]
    never fails. *)
Theorem DispatchMessage_releases_working_set d m h destination reply deadLetter w :
  exists err (tracked : list Message) w1,
    DispatchMessage_body d (Some m) h destination reply deadLetter w =
      ((err, Some <$> tracked), w1) /\
    finished w1 = finished w /\
    DispatchMessage d (Some m) h destination reply deadLetter w =
      (Returned err, released tracked w1) /\
    (DispatchMessage (binding := releaseAlwaysSucceeds binding)
       d (Some m) h destination reply deadLetter w).1 = Returned err.
Proof.
  destruct (DispatchMessage_body_runs d m h destination reply deadLetter w)
    as (err & new & w1 & Hbody & _ & Hfin & _).
  exists err, (m :: responses new), w1.
  repeat split; try done.
  - by apply DispatchMessage_of_body.
  - assert (DispatchMessage_body (binding := releaseAlwaysSucceeds binding)
              d (Some m) h destination reply deadLetter w =
            ((err, Some <$> (m :: responses new)), w1)) as Hbody'
      by exact Hbody.
    by rewrite (DispatchMessage_of_body (binding := releaseAlwaysSucceeds binding)
                  _ _ _ _ _ _ _ _ _ _ Hbody').
Qed.


(** C2.  A call performs at most three exchanges, whatever the inbound
    message, the targets and the answers: the log of exchanges after the
    call is the log before it followed by at most three entries. *)
Theorem DispatchMessage_at_most_three_exchanges d initialMessage h destination
    reply deadLetter w :
  exists new,
    exchanges (DispatchMessage d initialMessage h destination reply deadLetter w).2 =
      exchanges w ++ new /\
    (length new <= 3)%nat.
Proof.
  rewrite DispatchMessage_exchanges.
  apply DispatchMessage_body_exchanges.
Qed.

(** C7.  Without destination and without reply the call returns [nil]
    and the log of exchanges is unchanged, for every inbound message
    (a [nil] one too), every header set and every dead-letter target. *)
Theorem DispatchMessage_without_targets initialMessage d h deadLetter w :
  (DispatchMessage d initialMessage h None None deadLetter w).1 = Returned None /\
  exchanges (DispatchMessage d initialMessage h None None deadLetter w).2 =
    exchanges w.
Proof. by destruct initialMessage. Qed.

(** C3.  When the destination answers with a message, the reply sink
    fails and a dead-letter sink is given, the exchange that follows the
    failed reply goes to the dead-letter sink and carries the original
    inbound message, not the response of the destination, with the
    carry-over headers, the ones the destination returned. *)
Theorem dead_letter_after_reply_carries_original d initialMessage h destination
    reply deadLetter w dest rep dl response responseHeaders w1 rr rh err w2 :
  sanitizeURL d destination = Some dest ->
  sanitizeURL d reply = Some rep ->
  sanitizeURL d deadLetter = Some dl ->
  executeRequest d dest initialMessage h w =
    ((Some response, responseHeaders, None), w1) ->
  executeRequest d rep (Some response) responseHeaders w1 =
    ((rr, rh, Some err), w2) ->
  exchanges (DispatchMessage d initialMessage h destination reply deadLetter w).2 =
    exchanges w2 ++
    [exchanged dl initialMessage responseHeaders
       (executeRequest d dl initialMessage responseHeaders w2).1].
Proof.
  intros Hd Hr Hdl He He2. rewrite DispatchMessage_exchanges.
  rewrite (body_carry_over d initialMessage h destination reply deadLetter
             w (Some response) responseHeaders w1);
    [|unfold CarryOver; by rewrite Hd].
  rewrite Hr, Hdl.
  destruct (executeRequest d dl initialMessage responseHeaders w2)
    as [[[dlm dlh] dlErr] w3] eqn:He3.
  rewrite (forward_reply_dead_letter _ _ _ _ _ _ _ _ _ _ _ _ _ _ _ _ He2 He3).
  apply executeRequest_exchanges in He3 as [Hx3 _].
  by destruct dlErr.
Qed.

(** C4.  For a dispatcher built by [NewMessageDispatcherFromConfig]:
    an absent URL stays absent; a URL whose scheme is [http] or [https]
    is returned as it is; any other URL becomes the URL with scheme
    [http], the same host and path [/], every other field empty (no
    credentials, no query, no fragment), which is written [http://h/].
    [sanitizeURL] is a function to [option URL]: it has a value on every
    input and no error result. *)
Theorem sanitizeURL_spec (newSender : result (HttpMessageSender Message)) d u :
  NewMessageDispatcherFromConfig newSender = Some d ->
  sanitizeURL d None = None /\
  (Scheme u = "http" \/ Scheme u = "https" -> sanitizeURL d (Some u) = Some u) /\
  (Scheme u <> "http" -> Scheme u <> "https" ->
   sanitizeURL d (Some u) =
     Some {| Scheme := "http"; Opaque := ""; User := None; Host := Host u;
             Path := "/"; RawPath := ""; ForceQuery := false; RawQuery := "";
             Fragment := ""; RawFragment := "" |}).
Proof.
  destruct newSender as [snd|]; [|done]. intros [= <-].
  split; [done|]. unfold sanitizeURL. simpl. split.
  - intros Hs. rewrite bool_decide_eq_true_2; [done|].
    by rewrite elem_of_union, !elem_of_singleton.
  - intros H1 H2. rewrite bool_decide_eq_false_2; [done|].
    rewrite elem_of_union, !elem_of_singleton. by intros [?|?].
Qed.

(** C5.  When the destination fails and a dead-letter sink is given, the
    call makes exactly two exchanges: the failed one and one with the
    dead-letter sink, carrying the original message and headers; no
    exchange with the reply sink follows.  If the dead-letter exchange
    succeeds the call returns [nil]. *)
Theorem dead_letter_after_destination_once d m h destination reply
    deadLetter w dest dl rm rh err w1 dlm dlh dlErr w2 :
  sanitizeURL d destination = Some dest ->
  sanitizeURL d deadLetter = Some dl ->
  executeRequest d dest (Some m) h w = ((rm, rh, Some err), w1) ->
  executeRequest d dl (Some m) h w1 = ((dlm, dlh, dlErr), w2) ->
  exchanges (DispatchMessage d (Some m) h destination reply deadLetter w).2 =
    exchanges w ++
    [exchanged dest (Some m) h (rm, rh, Some err);
     exchanged dl (Some m) h (dlm, dlh, dlErr)] /\
  (dlErr = None ->
   (DispatchMessage d (Some m) h destination reply deadLetter w).1 =
     Returned None).
Proof.
  intros Hd Hdl He He2.
  rewrite (DispatchMessage_destination_dead_letter _ _ _ _ reply _ _ _ _ _ _ _
             _ _ _ _ _ Hd Hdl He He2).
  apply executeRequest_exchanges in He as [Hx1 _].
  apply executeRequest_exchanges in He2 as [Hx2 _].
  simpl. rewrite Hx2, Hx1, <- app_assoc. split; [done|].
  by intros ->.
Qed.

(** C6.  A failed hop without a dead-letter sink makes the call return
    an error that names the target of the hop and the cause: "unable to
    complete request to <destination>: <cause>" for the destination,
    "failed to forward reply to <reply>: <cause>" for the reply.  With
    a dead-letter sink that fails too, the error names the target of the
    hop, its cause, the dead-letter target and its cause. *)
Theorem DispatchMessage_reports_failed_hop d m h destination reply deadLetter w :
  (forall dest rm rh err w1,
     sanitizeURL d destination = Some dest ->
     sanitizeURL d deadLetter = None ->
     executeRequest d dest (Some m) h w = ((rm, rh, Some err), w1) ->
     (DispatchMessage d (Some m) h destination reply deadLetter w).1 =
       Returned (Some ("unable to complete request to " +:+ URL_String dest +:+
                       ": " +:+ err))) /\
  (forall dest dl rm rh err w1 dlm dlh dlErr w2,
     sanitizeURL d destination = Some dest ->
     sanitizeURL d deadLetter = Some dl ->
     executeRequest d dest (Some m) h w = ((rm, rh, Some err), w1) ->
     executeRequest d dl (Some m) h w1 = ((dlm, dlh, Some dlErr), w2) ->
     (DispatchMessage d (Some m) h destination reply deadLetter w).1 =
       Returned (Some ("unable to complete request to either " +:+
                       URL_String dest +:+ " (" +:+ err +:+ ") or " +:+
                       URL_String dl +:+ " (" +:+ dlErr +:+ ")"))) /\
  (forall c ch w1 rep rr rh err w2,
     CarryOver d (Some m) h destination w (Some c) ch w1 ->
     sanitizeURL d reply = Some rep ->
     sanitizeURL d deadLetter = None ->
     executeRequest d rep (Some c) ch w1 = ((rr, rh, Some err), w2) ->
     (DispatchMessage d (Some m) h destination reply deadLetter w).1 =
       Returned (Some ("failed to forward reply to " +:+ URL_String rep +:+
                       ": " +:+ err))) /\
  (forall c ch w1 rep dl rr rh err w2 dlm dlh dlErr w3,
     CarryOver d (Some m) h destination w (Some c) ch w1 ->
     sanitizeURL d reply = Some rep ->
     sanitizeURL d deadLetter = Some dl ->
     executeRequest d rep (Some c) ch w1 = ((rr, rh, Some err), w2) ->
     executeRequest d dl (Some m) ch w2 = ((dlm, dlh, Some dlErr), w3) ->
     (DispatchMessage d (Some m) h destination reply deadLetter w).1 =
       Returned (Some ("failed to forward reply to " +:+ URL_String rep +:+
                       " (" +:+ err +:+
                       ") and failed to send it to the dead letter sink " +:+
                       URL_String dl +:+ " (" +:+ dlErr +:+ ")"))).
Proof.
  repeat split.
  - intros * Hd Hdl He.
    by rewrite (DispatchMessage_destination_failed _ _ _ _ reply _ _ _ _ _ _ _
                  Hd Hdl He).
  - intros * Hd Hdl He He2.
    by rewrite (DispatchMessage_destination_dead_letter _ _ _ _ reply _ _ _ _
                  _ _ _ _ _ _ _ _ Hd Hdl He He2).
  - intros * Hc Hr Hdl He.
    by rewrite (DispatchMessage_reply_failed _ _ _ _ _ _ _ _ _ _ _ _ _ _ _
                  Hc Hr Hdl He).
  - intros * Hc Hr Hdl He He2.
    by rewrite (DispatchMessage_reply_dead_letter _ _ _ _ _ _ _ _ _ _ _ _ _ _
                  _ _ _ _ _ _ Hc Hr Hdl He He2).
Qed.

(** C8.  Once a response has been obtained, [executeRequest] goes by its
    status code: with a code from 200 to 299 it returns no error; with
    any other code it returns no message, no headers and the error
    "unexpected HTTP response, expected 2xx, got <code>". *)
Theorem executeRequest_classifies_status d u initialMessage h w req response :
  NewCloudEventRequestWithTarget (sender d) (URL_String u) = Ok req ->
  WriteHttpRequestWithAdditionalHeaders (exchanges w) initialMessage req h = None ->
  Send (sender d) (exchanges w)
    {| Target := Target req; Event := initialMessage; AdditionalHeaders := h |} =
    Ok response ->
  (200 <= StatusCode response < 300 ->
   (executeRequest d u initialMessage h w).1.2 = None) /\
  (~ 200 <= StatusCode response < 300 ->
   (executeRequest d u initialMessage h w).1 =
     (None, None,
      Some ("unexpected HTTP response, expected 2xx, got " +:+
            pretty (StatusCode response)))).
Proof.
  intros Hreq Hwrite Hsend. rewrite executeRequest_run. simpl.
  unfold executeRequest_result. rewrite Hreq, Hwrite, Hsend.
  unfold isFailure. split; intros Hcode.
  - replace (200 <=? StatusCode response) with true by lia.
    replace (StatusCode response <? 300) with true by lia.
    simpl. by case_decide.
  - destruct (200 <=? StatusCode response) eqn:H1,
      (StatusCode response <? 300) eqn:H2; simpl; try done.
    lia.
Qed.

(** C9.  A response with a 2xx code whose message has an unknown
    encoding makes [executeRequest] return no message and no error.  And
    when the destination exchange returns no message and no error, the
    call returns [nil] after that single exchange, whether or not a
    reply sink is given. *)
Theorem nil_response_ends_dispatch d m h destination reply deadLetter w :
  (forall u initialMessage req response,
     NewCloudEventRequestWithTarget (sender d) (URL_String u) = Ok req ->
     WriteHttpRequestWithAdditionalHeaders (exchanges w) initialMessage req h = None ->
     Send (sender d) (exchanges w)
       {| Target := Target req; Event := initialMessage; AdditionalHeaders := h |} =
       Ok response ->
     200 <= StatusCode response < 300 ->
     ReadEncoding (NewMessageFromHttpResponse response) = EncodingUnknown ->
     (executeRequest d u initialMessage h w).1 = (None, None, None)) /\
  (forall dest rh w1,
     sanitizeURL d destination = Some dest ->
     executeRequest d dest (Some m) h w = ((None, rh, None), w1) ->
     (DispatchMessage d (Some m) h destination reply deadLetter w).1 =
       Returned None /\
     exchanges (DispatchMessage d (Some m) h destination reply deadLetter w).2 =
       exchanges w ++ [exchanged dest (Some m) h (None, rh, None)]).
Proof.
  split.
  - intros * Hreq Hwrite Hsend Hcode Henc. rewrite executeRequest_run. simpl.
    unfold executeRequest_result. rewrite Hreq, Hwrite, Hsend.
    unfold isFailure.
    replace (200 <=? StatusCode response) with true by lia.
    replace (StatusCode response <? 300) with true by lia.
    simpl. by rewrite decide_True.
  - intros * Hd He.
    rewrite (DispatchMessage_nothing_to_forward _ _ _ _ reply deadLetter _ _ _ _
               Hd He).
    apply executeRequest_exchanges in He as [Hx _]. by simpl.
Qed.

(** C10.  [executeRequest] returns headers only together with a message:
    when the message it returns is [nil], so are the headers.  And the
    headers [dlh] returned by a dead-letter exchange are dropped: that
    exchange is the last of the call, and the value returned and the
    messages released are determined without [dlh]. *)
Theorem response_headers_need_a_message d m h destination reply deadLetter w :
  (forall u initialMessage,
     (executeRequest d u initialMessage h w).1.1.1 = None ->
     (executeRequest d u initialMessage h w).1.1.2 = None) /\
  (forall dest dl rm rh err w1 dlm dlh dlErr w2,
     sanitizeURL d destination = Some dest ->
     sanitizeURL d deadLetter = Some dl ->
     executeRequest d dest (Some m) h w = ((rm, rh, Some err), w1) ->
     executeRequest d dl (Some m) h w1 = ((dlm, dlh, dlErr), w2) ->
     DispatchMessage d (Some m) h destination reply deadLetter w =
       (Returned (afterDeadLetter (errDestinationAndDeadLetter dest err dl) dlErr),
        released (m :: option_list dlm) w2)) /\
  (forall c ch w1 rep dl rr rh err w2 dlm dlh dlErr w3,
     CarryOver d (Some m) h destination w (Some c) ch w1 ->
     sanitizeURL d reply = Some rep ->
     sanitizeURL d deadLetter = Some dl ->
     executeRequest d rep (Some c) ch w1 = ((rr, rh, Some err), w2) ->
     executeRequest d dl (Some m) ch w2 = ((dlm, dlh, dlErr), w3) ->
     DispatchMessage d (Some m) h destination reply deadLetter w =
       (Returned (afterDeadLetter (errReplyAndDeadLetter rep err dl) dlErr),
        released (carried d destination m c ++ option_list dlm) w3)).
Proof.
  repeat split.
  - intros u initialMessage. rewrite executeRequest_run. simpl.
    apply executeRequest_result_headers.
  - intros * Hd Hdl He He2.
    by apply (DispatchMessage_destination_dead_letter _ _ _ _ reply _ _ _ _
                _ _ _ _ _ _ _ _ Hd Hdl He He2).
  - intros * Hc Hr Hdl He He2.
    by apply (DispatchMessage_reply_dead_letter _ _ _ _ _ _ _ _ _ _ _ _ _ _
                _ _ _ _ _ _ Hc Hr Hdl He He2).
Qed.

End Contract.

(** * The contract on concrete runs *)

Import Fake.

(** C2.  Two exchanges are not a bound: when the destination answers
    with an event, the reply sink rejects it and the dead-letter sink is
    tried, the call makes three. *)
Lemma DispatchMessage_three_exchanges :
  ~ (length (exchanges (DispatchMessage (dispatcher replyRejects) (Some inbound)
                          inboundHeaders (Some D) (Some R) (Some DL) start).2)
     <= length (exchanges start) + 2)%nat.
Proof. vm_compute. lia. Qed.

(** C3 on the same run: the dead-letter sink receives [inbound], not
    [answer], with the headers the destination returned. *)
Lemma dead_letter_after_reply_carries_original_witness :
  let d := dispatcher replyRejects in
  let w1 := (executeRequest d D (Some inbound) inboundHeaders start).2 in
  let w2 := (executeRequest d R (Some answer) traceparent w1).2 in
  exchanges (DispatchMessage d (Some inbound) inboundHeaders
               (Some D) (Some R) (Some DL) start).2 =
    exchanges w2 ++
    [exchanged DL (Some inbound) traceparent
       (executeRequest d DL (Some inbound) traceparent w2).1].
Proof.
  intros d w1 w2.
  apply (dead_letter_after_reply_carries_original d (Some inbound) inboundHeaders
           (Some D) (Some R) (Some DL) start D R DL answer traceparent w1
           None None "unexpected HTTP response, expected 2xx, got 503" w2);
    reflexivity.
Defined.

(** C4 on a routing hint. *)
Lemma sanitizeURL_spec_witness :
  sanitizeURL (dispatcher replyRejects) (Some hostOnly) = Some (target "http" "h").
Proof.
  apply (sanitizeURL_spec (Ok (server replyRejects)) (dispatcher replyRejects)
           hostOnly eq_refl); discriminate.
Defined.

(** C5: the destination rejects, the dead-letter sink accepts. *)
Lemma dead_letter_after_destination_once_witness :
  let d := dispatcher destinationRejects in
  let rejected := Some "unexpected HTTP response, expected 2xx, got 500" in
  exchanges (DispatchMessage d (Some inbound) inboundHeaders
               (Some D) (Some R) (Some DL) start).2 =
    [exchanged D (Some inbound) inboundHeaders (None, None, rejected);
     exchanged DL (Some inbound) inboundHeaders (None, None, None)] /\
  (DispatchMessage d (Some inbound) inboundHeaders
     (Some D) (Some R) (Some DL) start).1 = Returned None.
Proof.
  intros d rejected.
  pose proof (dead_letter_after_destination_once d inbound
                inboundHeaders (Some D) (Some R) (Some DL) start D DL None None
                "unexpected HTTP response, expected 2xx, got 500"
                (executeRequest d D (Some inbound) inboundHeaders start).2
                None None None
                (executeRequest d DL (Some inbound) inboundHeaders
                   (executeRequest d D (Some inbound) inboundHeaders start).2).2)
    as Hrun.
  destruct Hrun as [Hlog Hnil]; [reflexivity..|].
  split; [exact Hlog | exact (Hnil eq_refl)].
Defined.

(** C6: the four errors when every receiver rejects. *)
Lemma DispatchMessage_reports_failed_hop_witness :
  let d := dispatcher allReject in
  (DispatchMessage d (Some inbound) inboundHeaders (Some D) None None start).1 =
    Returned (Some "unable to complete request to http://destination/: unexpected HTTP response, expected 2xx, got 500") /\
  (DispatchMessage d (Some inbound) inboundHeaders (Some D) None (Some DL) start).1 =
    Returned (Some "unable to complete request to either http://destination/ (unexpected HTTP response, expected 2xx, got 500) or http://deadletter/ (unexpected HTTP response, expected 2xx, got 404)") /\
  (DispatchMessage d (Some inbound) inboundHeaders None (Some R) None start).1 =
    Returned (Some "failed to forward reply to http://reply/: unexpected HTTP response, expected 2xx, got 503") /\
  (DispatchMessage d (Some inbound) inboundHeaders None (Some R) (Some DL) start).1 =
    Returned (Some "failed to forward reply to http://reply/ (unexpected HTTP response, expected 2xx, got 503) and failed to send it to the dead letter sink http://deadletter/ (unexpected HTTP response, expected 2xx, got 404)").
Proof.
  intros d.
  set (w1 := (executeRequest d D (Some inbound) inboundHeaders start).2).
  set (w2 := (executeRequest d R (Some inbound) inboundHeaders start).2).
  pose proof (DispatchMessage_reports_failed_hop d inbound inboundHeaders
                (Some D) None None start) as (H1 & _).
  pose proof (DispatchMessage_reports_failed_hop d inbound inboundHeaders
                (Some D) None (Some DL) start) as (_ & H2 & _).
  pose proof (DispatchMessage_reports_failed_hop d inbound inboundHeaders
                None (Some R) None start) as (_ & _ & H3 & _).
  pose proof (DispatchMessage_reports_failed_hop d inbound inboundHeaders
                None (Some R) (Some DL) start) as (_ & _ & _ & H4).
  specialize (H1 D None None "unexpected HTTP response, expected 2xx, got 500" w1).
  specialize (H2 D DL None None "unexpected HTTP response, expected 2xx, got 500"
                w1 None None "unexpected HTTP response, expected 2xx, got 404"
                (executeRequest d DL (Some inbound) inboundHeaders w1).2).
  specialize (H3 inbound inboundHeaders start R None None
                "unexpected HTTP response, expected 2xx, got 503" w2).
  specialize (H4 inbound inboundHeaders start R DL None None
                "unexpected HTTP response, expected 2xx, got 503" w2
                None None "unexpected HTTP response, expected 2xx, got 404"
                (executeRequest d DL (Some inbound) inboundHeaders w2).2).
  split; [|split; [|split]].
  - exact (H1 ltac:(reflexivity) ltac:(reflexivity) ltac:(reflexivity)).
  - exact (H2 ltac:(reflexivity) ltac:(reflexivity) ltac:(reflexivity)
              ltac:(reflexivity)).
  - exact (H3 ltac:(vm_compute; auto) ltac:(reflexivity) ltac:(reflexivity)
              ltac:(reflexivity)).
  - exact (H4 ltac:(vm_compute; auto) ltac:(reflexivity) ltac:(reflexivity)
              ltac:(reflexivity) ltac:(reflexivity)).
Defined.

(** C8: a 202 is accepted, a 500 is reported. *)
Lemma executeRequest_classifies_status_witness :
  (executeRequest (dispatcher replyRejects) DL (Some inbound) inboundHeaders
     start).1.2 = None /\
  (executeRequest (dispatcher allReject) D (Some inbound) inboundHeaders
     start).1 =
    (None, None, Some "unexpected HTTP response, expected 2xx, got 500").
Proof.
  pose proof (executeRequest_classifies_status (dispatcher replyRejects) DL
                (Some inbound) inboundHeaders start
                {| Target := "http://deadletter/"; Event := None;
                   AdditionalHeaders := None |}
                (respond 202 None "")) as Haccepted.
  pose proof (executeRequest_classifies_status (dispatcher allReject) D
                (Some inbound) inboundHeaders start request
                (respond 500 None "")) as Hrejected.
  destruct Haccepted as [Haccepted _]; [reflexivity..|].
  destruct Hrejected as [_ Hrejected]; [reflexivity..|].
  split.
  - apply Haccepted. simpl. lia.
  - apply Hrejected. simpl. lia.
Defined.

(** C9: the destination acknowledges with a bare 200; the reply sink is
    given and is not called. *)
Lemma nil_response_ends_dispatch_witness :
  let d := dispatcher destinationAcknowledges in
  (executeRequest d D (Some inbound) inboundHeaders start).1 = (None, None, None) /\
  (DispatchMessage d (Some inbound) inboundHeaders (Some D) (Some R) None start).1 =
    Returned None /\
  exchanges (DispatchMessage d (Some inbound) inboundHeaders
               (Some D) (Some R) None start).2 =
    [exchanged D (Some inbound) inboundHeaders (None, None, None)].
Proof.
  intros d.
  pose proof (nil_response_ends_dispatch d inbound inboundHeaders
                (Some D) (Some R) None start) as [Hexchange Hdispatch].
  split.
  - apply (Hexchange D (Some inbound) request (respond 200 traceparent ""));
      try reflexivity.
    simpl. lia.
  - apply (Hdispatch D None
             (executeRequest d D (Some inbound) inboundHeaders start).2);
      reflexivity.
Defined.

(** C10: the [Traceparent] header of the bare 200 is not returned, and
    the run of C3 does not depend on what the dead-letter sink returns
    as headers. *)
Lemma response_headers_need_a_message_witness :
  (executeRequest (dispatcher destinationAcknowledges) D (Some inbound)
     inboundHeaders start).1.1.2 = None /\
  (DispatchMessage (dispatcher destinationRejects) (Some inbound) inboundHeaders
     (Some D) (Some R) (Some DL) start).1 = Returned None /\
  DispatchMessage (dispatcher replyRejects) (Some inbound) inboundHeaders
    (Some D) (Some R) (Some DL) start =
    (Returned None,
     {| exchanges :=
          [exchanged D (Some inbound) inboundHeaders
             (Some answer, traceparent, None);
           exchanged R (Some answer) traceparent
             (None, None,
              Some "unexpected HTTP response, expected 2xx, got 503");
           exchanged DL (Some inbound) traceparent (None, None, None)];
        finished := [(inbound, Some "already closed"); (answer, None)] |}).
Proof.
  pose proof (response_headers_need_a_message
                (dispatcher destinationAcknowledges) inbound inboundHeaders
                (Some D) (Some R) (Some DL) start) as (Hheaders & _).
  pose proof (response_headers_need_a_message
                (dispatcher destinationRejects) inbound inboundHeaders
                (Some D) (Some R) (Some DL) start) as (_ & Hdestination & _).
  pose proof (response_headers_need_a_message
                (dispatcher replyRejects) inbound inboundHeaders
                (Some D) (Some R) (Some DL) start) as (_ & _ & Hreply).
  split; [|split].
  - exact (Hheaders D (Some inbound) ltac:(reflexivity)).
  - set (d := dispatcher destinationRejects) in *.
    set (w1 := (executeRequest d D (Some inbound) inboundHeaders start).2).
    rewrite (Hdestination D DL None None
               "unexpected HTTP response, expected 2xx, got 500" w1
               None None None
               (executeRequest d DL (Some inbound) inboundHeaders w1).2
               ltac:(reflexivity) ltac:(reflexivity) ltac:(reflexivity)
               ltac:(reflexivity)).
    reflexivity.
  - set (d := dispatcher replyRejects) in *.
    set (w1 := (executeRequest d D (Some inbound) inboundHeaders start).2).
    set (w2 := (executeRequest d R (Some answer) traceparent w1).2).
    rewrite (Hreply answer traceparent w1 R DL None None
               "unexpected HTTP response, expected 2xx, got 503" w2
               None None None
               (executeRequest d DL (Some inbound) traceparent w2).2
               ltac:(reflexivity) ltac:(reflexivity) ltac:(reflexivity)
               ltac:(reflexivity) ltac:(reflexivity)).
    reflexivity.
Defined.

(** * How a call proceeds *)

Section Behaviour.

Context {Message : Type} {binding : BindingMessage Message}.
Context {collaborators : Collaborators Message}.

Implicit Types (d : MessageDispatcherImpl Message) (w : World Message).
Implicit Types (m : Message) (h : Header) (u : URL).
Implicit Types (initialMessage : option Message).
Implicit Types (destination reply deadLetter : option URL).

Lemma executeRequest_failed_bare d u initialMessage h w rm rh err w1 :
  executeRequest d u initialMessage h w = ((rm, rh, Some err), w1) ->
  rm = None /\ rh = None.
Proof.
  intros He. pose proof (executeRequest_failed _ _ _ _ _ _ _ _ _ He) as ->.
  split; [done|]. revert He. rewrite executeRequest_run. intros [= Hr _].
  pose proof (executeRequest_result_headers d (exchanges w) u initialMessage h) as H.
  rewrite Hr in H. by apply H.
Qed.

Lemma executeRequest_result_message d past u initialMessage h rm rh err :
  executeRequest_result d past u initialMessage h = (Some rm, rh, err) ->
  exists req response,
    NewCloudEventRequestWithTarget (sender d) (URL_String u) = Ok req /\
    WriteHttpRequestWithAdditionalHeaders past initialMessage req h = None /\
    Send (sender d) past
      {| Target := Target req; Event := initialMessage; AdditionalHeaders := h |} =
      Ok response /\
    isFailure (StatusCode response) = false /\
    rm = NewMessageFromHttpResponse response /\
    ReadEncoding rm <> EncodingUnknown /\
    rh = PassThroughHeaders (ResponseHeader response) /\
    err = None.
Proof.
  unfold executeRequest_result.
  destruct (NewCloudEventRequestWithTarget _ _) as [req|e0]; simpl; [|done].
  destruct (WriteHttpRequestWithAdditionalHeaders _ _ _ _) as [e1|] eqn:Hw;
    simpl; [done|].
  destruct (Send _ _ _) as [response|e2] eqn:Hs; simpl; [|done].
  destruct (isFailure (StatusCode response)) eqn:Hf; simpl; [done|].
  case_decide as Henc; simpl; [done|]. intros [= <- <- <-].
  by exists req, response.
Qed.

Lemma executeRequest_genuine d u initialMessage h w r w1 :
  executeRequest d u initialMessage h w = (r, w1) ->
  genuine d (exchanged u initialMessage h r).
Proof.
  rewrite executeRequest_run. intros [= <- _]. exists (exchanges w).
  simpl. by destruct (executeRequest_result _ _ _ _ _) as [[? ?] ?].
Qed.

Lemma DispatchMessage_forward_path d initialMessage reply deadLetter cm ch acc w :
  exists err acc' new w1,
    DispatchMessage_forward d initialMessage reply deadLetter cm ch acc w =
      ((err, acc'), w1) /\
    exchanges w1 = exchanges w ++ new /\
    Forwarded initialMessage reply deadLetter cm ch new err /\
    Forall (genuine d) new.
Proof.
  destruct cm as [c|].
  2:{ exists None, acc, [], w. rewrite forward_nothing, app_nil_r.
      split; [done|]. split; [done|]. split; [by constructor|done]. }
  destruct reply as [rep|].
  2:{ exists None, (acc ++ [Some c]), [], w. rewrite forward_no_reply, app_nil_r.
      split; [done|]. split; [done|]. split; [by econstructor 2|done]. }
  destruct (executeRequest d rep (Some c) ch w) as [[[rr rh] [err|]] w1] eqn:He.
  2:{ eexists None, _, [_], w1.
      rewrite (forward_replied _ _ _ _ _ _ _ _ _ _ _ He).
      pose proof (executeRequest_genuine _ _ _ _ _ _ _ He) as Hg.
      apply executeRequest_exchanges in He as [Hx _].
      split; [reflexivity|]. split; [exact Hx|].
      split; [by econstructor 3|by repeat constructor]. }
  destruct (executeRequest_failed_bare _ _ _ _ _ _ _ _ _ He) as [-> ->].
  pose proof (executeRequest_genuine _ _ _ _ _ _ _ He) as Hg.
  destruct deadLetter as [dl|].
  2:{ eexists _, _, [_], w1.
      rewrite (forward_reply_failed _ _ _ _ _ _ _ _ _ _ _ He).
      apply executeRequest_exchanges in He as [Hx _].
      split; [reflexivity|]. split; [exact Hx|].
      split; [by econstructor 4|by repeat constructor]. }
  destruct (executeRequest d dl initialMessage ch w1)
    as [[[dlm dlh] dlErr] w2] eqn:He2.
  rewrite (forward_reply_dead_letter _ _ _ _ _ _ _ _ _ _ _ _ _ _ _ _ He He2).
  pose proof (executeRequest_genuine _ _ _ _ _ _ _ He2) as Hg2.
  apply executeRequest_exchanges in He as [Hx1 _].
  apply executeRequest_exchanges in He2 as [Hx2 _].
  exists (afterDeadLetter (errReplyAndDeadLetter rep err dl) dlErr),
    (match dlErr with
     | Some _ => acc ++ [Some c]
     | None => appendIfNotNil (acc ++ [Some c]) dlm
     end),
    [exchanged rep (Some c) ch (None, None, Some err);
     exchanged dl initialMessage ch (dlm, dlh, dlErr)], w2.
  split; [by destruct dlErr|].
  split; [by rewrite Hx2, Hx1, <- app_assoc|].
  split; [by econstructor 5|by repeat constructor].
Qed.

Lemma DispatchMessage_body_path d initialMessage h destination reply deadLetter w :
  exists err acc new w1,
    DispatchMessage_body d initialMessage h destination reply deadLetter w =
      ((err, acc), w1) /\
    exchanges w1 = exchanges w ++ new /\
    Dispatched initialMessage h (sanitizeURL d destination) (sanitizeURL d reply)
      (sanitizeURL d deadLetter) new err /\
    Forall (genuine d) new.
Proof.
  destruct (sanitizeURL d destination) as [dest|] eqn:Hd.
  2:{ destruct (DispatchMessage_forward_path d initialMessage
                  (sanitizeURL d reply) (sanitizeURL d deadLetter)
                  initialMessage h [] w)
        as (err & acc & new & w1 & Hf & Hx & Hp & Hg).
      exists err, acc, new, w1.
      rewrite (body_carry_over d initialMessage h destination reply deadLetter
                 w initialMessage h w); [|unfold CarryOver; by rewrite Hd].
      rewrite Hd. split; [done|]. split; [done|].
      split; [by apply dispatched_no_destination|done]. }
  destruct (executeRequest d dest initialMessage h w)
    as [[[rm rh] [err|]] w1] eqn:He.
  2:{ destruct (DispatchMessage_forward_path d initialMessage
                  (sanitizeURL d reply) (sanitizeURL d deadLetter)
                  rm rh [initialMessage] w1)
        as (err & acc & new & w2 & Hf & Hx & Hp & Hg).
      exists err, acc, (exchanged dest initialMessage h (rm, rh, None) :: new), w2.
      rewrite (body_carry_over d initialMessage h destination reply deadLetter
                 w rm rh w1); [|unfold CarryOver; by rewrite Hd].
      rewrite Hd. split; [done|].
      pose proof (executeRequest_genuine _ _ _ _ _ _ _ He) as Hg1.
      apply executeRequest_exchanges in He as [Hx1 _].
      split; [by rewrite Hx, Hx1, <- app_assoc|].
      split; [by apply dispatched_destination_answered|by constructor]. }
  destruct (executeRequest_failed_bare _ _ _ _ _ _ _ _ _ He) as [-> ->].
  pose proof (executeRequest_genuine _ _ _ _ _ _ _ He) as Hg1.
  destruct (sanitizeURL d deadLetter) as [dl|] eqn:Hdl.
  2:{ eexists _, _, [_], w1.
      rewrite (body_destination_failed _ _ _ _ reply _ _ _ _ _ _ _ Hd Hdl He).
      apply executeRequest_exchanges in He as [Hx _].
      split; [reflexivity|]. split; [exact Hx|].
      split; [by apply dispatched_destination_failed|by repeat constructor]. }
  destruct (executeRequest d dl initialMessage h w1)
    as [[[dlm dlh] dlErr] w2] eqn:He2.
  rewrite (body_destination_dead_letter _ _ _ _ reply _ _ _ _ _ _ _ _ _ _ _ _
             Hd Hdl He He2).
  pose proof (executeRequest_genuine _ _ _ _ _ _ _ He2) as Hg2.
  apply executeRequest_exchanges in He as [Hx1 _].
  apply executeRequest_exchanges in He2 as [Hx2 _].
  exists (afterDeadLetter (errDestinationAndDeadLetter dest err dl) dlErr),
    (match dlErr with
     | Some _ => [initialMessage]
     | None => appendIfNotNil [initialMessage] dlm
     end),
    [exchanged dest initialMessage h (None, None, Some err);
     exchanged dl initialMessage h (dlm, dlh, dlErr)], w2.
  split; [by destruct dlErr|].
  split; [by rewrite Hx2, Hx1, <- app_assoc|].
  split; [by apply dispatched_destination_dead_letter|by repeat constructor].
Qed.

(** The exchanges of a call follow one of the paths; with an inbound
    message the call returns the error of that path. *)
Lemma DispatchMessage_exchanges_path d initialMessage h destination reply
    deadLetter w :
  exists err new,
    exchanges (DispatchMessage d initialMessage h destination reply deadLetter w).2 =
      exchanges w ++ new /\
    Dispatched initialMessage h (sanitizeURL d destination) (sanitizeURL d reply)
      (sanitizeURL d deadLetter) new err.
Proof.
  destruct (DispatchMessage_body_path d initialMessage h destination reply
              deadLetter w) as (err & acc & new & w1 & Hb & Hx & Hp & _).
  exists err, new. rewrite DispatchMessage_exchanges, Hb. by simpl.
Qed.


Lemma DispatchMessage_path d m h destination reply deadLetter w :
  exists err new,
    (DispatchMessage d (Some m) h destination reply deadLetter w).1 = Returned err /\
    exchanges (DispatchMessage d (Some m) h destination reply deadLetter w).2 =
      exchanges w ++ new /\
    Dispatched (Some m) h (sanitizeURL d destination) (sanitizeURL d reply)
      (sanitizeURL d deadLetter) new err.
Proof.
  destruct (DispatchMessage_body_path d (Some m) h destination reply
              deadLetter w) as (err & acc & new & w1 & Hb & Hx & Hp & _).
  destruct (DispatchMessage_body_runs d m h destination reply deadLetter w)
    as (err' & new' & w1' & Hb' & _).
  assert (err' = err /\ w1' = w1) as [-> ->].
  { rewrite Hb in Hb'. by injection Hb' as -> _ ->. }
  exists err, new.
  rewrite (DispatchMessage_of_body _ _ _ _ _ _ _ _ _ _ Hb'). by simpl.
Qed.

Lemma performed_app w w' (new : list (Exchange Message)) :
  exchanges w' = exchanges w ++ new -> performed w w' = new.
Proof. intros Hx. unfold performed. rewrite Hx. apply drop_app_length. Qed.

(** The exchanges performed by a call follow one of the paths. *)
Lemma DispatchMessage_performed d initialMessage h destination reply deadLetter w :
  exists err,
    Dispatched initialMessage h (sanitizeURL d destination) (sanitizeURL d reply)
      (sanitizeURL d deadLetter)
      (performed w
         (DispatchMessage d initialMessage h destination reply deadLetter w).2)
      err.
Proof.
  destruct (DispatchMessage_exchanges_path d initialMessage h destination reply
              deadLetter w) as (err & new & Hx & Hp).
  exists err. by rewrite (performed_app _ _ _ Hx).
Qed.

(** Case analysis on the path of a call: one goal per path, with the
    exchanges performed as an explicit list. *)
Ltac paths H :=
  let Hf := fresh "Hf" in
  destruct H as [dest err Hd Hdl
                |dest dl err dlm dlh dlErr Hd Hdl
                |dest cm ch new err Hd Hf
                |new err Hd Hf];
  [ | | destruct Hf as [Hc|c Hc Hr|c rep rr rh Hc Hr
                       |c rep err Hc Hr Hdl|c rep dl err dlm dlh dlErr Hc Hr Hdl]
      | destruct Hf as [Hc|c Hc Hr|c rep rr rh Hc Hr
                       |c rep err Hc Hr Hdl|c rep dl err dlm dlh dlErr Hc Hr Hdl] ].

(** ** [sanitizeURL] *)

Lemma sanitizeURL_sanitizeURL d (u : option URL) :
  sanitizeURL d (sanitizeURL d u) = sanitizeURL d u.
Proof.
  destruct u as [u|]; [|done]. unfold sanitizeURL.
  destruct (bool_decide (Scheme u ∈ supportedSchemes d)) eqn:E.
  - by rewrite E.
  - cbn [Scheme Host].
    by destruct (bool_decide ("http" ∈ supportedSchemes d)).
Qed.

Lemma sanitizeURL_host d (u : option URL) :
  Host <$> sanitizeURL d u = Host <$> u.
Proof.
  destruct u as [u|]; [|done]. unfold sanitizeURL. by case_bool_decide.
Qed.

(** Sanitizing twice is sanitizing once, whatever the supported schemes:
    the URL that [sanitizeURL] builds is left as it is, also by a
    dispatcher that does not support [http]. *)
Theorem sanitizeURL_idempotent d (u : option URL) :
  sanitizeURL d (sanitizeURL d u) = sanitizeURL d u.
Proof. apply sanitizeURL_sanitizeURL. Qed.

(** [sanitizeURL] never changes the host and never drops or invents a
    URL. *)
Theorem sanitizeURL_keeps_host d (u : option URL) :
  Host <$> sanitizeURL d u = Host <$> u.
Proof. apply sanitizeURL_host. Qed.

(** Handing an already sanitized target to the dispatcher changes
    nothing. *)
Theorem DispatchMessage_sanitized d initialMessage h destination reply deadLetter w :
  DispatchMessage d initialMessage h (sanitizeURL d destination)
    (sanitizeURL d reply) (sanitizeURL d deadLetter) w =
  DispatchMessage d initialMessage h destination reply deadLetter w.
Proof.
  unfold DispatchMessage, DispatchMessage_body.
  by rewrite !sanitizeURL_sanitizeURL.
Qed.

Lemma sanitizeURL_supported (newSender : result (HttpMessageSender Message)) d
    (u : option URL) u' :
  NewMessageDispatcherFromConfig newSender = Some d ->
  sanitizeURL d u = Some u' ->
  Scheme u' = "http" \/ Scheme u' = "https".
Proof.
  destruct newSender as [snd|]; [|done]. intros [= <-].
  destruct u as [u|]; [|done]. unfold sanitizeURL. simpl.
  case_bool_decide as Hs; intros [= <-]; [|by left].
  by rewrite elem_of_union, !elem_of_singleton in Hs.
Qed.

(** ** The exchanges of a call *)

Lemma performed_targets d initialMessage h destination reply deadLetter w i e :
  performed w (DispatchMessage d initialMessage h destination reply deadLetter w).2
    !! i = Some e ->
  sanitizeURL d destination = Some (exchange_url e) \/
  sanitizeURL d reply = Some (exchange_url e) \/
  sanitizeURL d deadLetter = Some (exchange_url e).
Proof.
  destruct (DispatchMessage_performed d initialMessage h destination reply
              deadLetter w) as (err0 & Hp).
  revert Hp. generalize (performed w
    (DispatchMessage d initialMessage h destination reply deadLetter w).2).
  intros l Hp Hi. paths Hp;
    repeat (destruct i as [|i]; simpl in Hi; simplify_eq); simpl; auto.
Qed.

(** A call talks to its own targets only: every exchange goes to the
    sanitized destination, reply or dead-letter URL. *)
Theorem DispatchMessage_targets d initialMessage h destination reply deadLetter
    w i e :
  performed w (DispatchMessage d initialMessage h destination reply deadLetter w).2
    !! i = Some e ->
  sanitizeURL d destination = Some (exchange_url e) \/
  sanitizeURL d reply = Some (exchange_url e) \/
  sanitizeURL d deadLetter = Some (exchange_url e).
Proof. apply performed_targets. Qed.

(** A call never talks to a host it was not given: the host of every
    exchange is the host of the destination, of the reply sink or of the
    dead-letter sink as the caller passed them. *)
Theorem DispatchMessage_hosts d initialMessage h destination reply deadLetter
    w i e :
  performed w (DispatchMessage d initialMessage h destination reply deadLetter w).2
    !! i = Some e ->
  Host <$> destination = Some (Host (exchange_url e)) \/
  Host <$> reply = Some (Host (exchange_url e)) \/
  Host <$> deadLetter = Some (Host (exchange_url e)).
Proof.
  intros Hi.
  rewrite <- (sanitizeURL_host d destination), <- (sanitizeURL_host d reply),
    <- (sanitizeURL_host d deadLetter).
  destruct (performed_targets _ _ _ _ _ _ _ _ _ Hi) as [H|[H|H]];
    rewrite H; auto.
Qed.

(** With the dispatcher the constructor builds, every exchange goes to
    a URL whose scheme is [http] or [https]. *)
Theorem DispatchMessage_schemes (newSender : result (HttpMessageSender Message))
    d initialMessage h destination reply deadLetter w i e :
  NewMessageDispatcherFromConfig newSender = Some d ->
  performed w (DispatchMessage d initialMessage h destination reply deadLetter w).2
    !! i = Some e ->
  Scheme (exchange_url e) = "http" \/ Scheme (exchange_url e) = "https".
Proof.
  intros Hnew Hi.
  destruct (performed_targets _ _ _ _ _ _ _ _ _ Hi) as [H|[H|H]];
    by apply (sanitizeURL_supported _ _ _ _ Hnew H).
Qed.


(** The first exchange of a call carries the inbound message and the
    inbound headers; it goes to the destination, or to the reply sink
    when there is no destination. *)
Theorem DispatchMessage_first_exchange d initialMessage h destination reply
    deadLetter w e :
  performed w (DispatchMessage d initialMessage h destination reply deadLetter w).2
    !! 0%nat = Some e ->
  exchange_message e = initialMessage /\
  exchange_headers e = h /\
  Some (exchange_url e) =
    match sanitizeURL d destination with
    | Some dest => Some dest
    | None => sanitizeURL d reply
    end.
Proof.
  destruct (DispatchMessage_performed d initialMessage h destination reply
              deadLetter w) as (err0 & Hp).
  revert Hp. generalize (performed w
    (DispatchMessage d initialMessage h destination reply deadLetter w).2).
  intros l Hp Hi. paths Hp; simpl in Hi; simplify_eq; rewrite Hd; simpl; auto.
Qed.

(** An exchange that follows a successful one is the reply hop: the
    successful one is the first of the call and went to the destination,
    which answered with a message; the next one goes to the reply sink
    with that message and the headers returned with it, not with the
    inbound headers. *)
Theorem DispatchMessage_after_success d initialMessage h destination reply
    deadLetter w i e e' :
  let new := performed w
    (DispatchMessage d initialMessage h destination reply deadLetter w).2 in
  new !! i = Some e ->
  new !! S i = Some e' ->
  exchange_err e = None ->
  i = 0%nat /\
  sanitizeURL d destination = Some (exchange_url e) /\
  sanitizeURL d reply = Some (exchange_url e') /\
  is_Some (exchange_response e) /\
  exchange_message e' = exchange_response e /\
  exchange_headers e' = exchange_response_headers e.
Proof.
  destruct (DispatchMessage_performed d initialMessage h destination reply
              deadLetter w) as (err0 & Hp).
  revert Hp. generalize (performed w
    (DispatchMessage d initialMessage h destination reply deadLetter w).2).
  intros l Hp new Hi Hi' He. subst new.
  paths Hp;
    repeat (destruct i as [|i]; simpl in Hi, Hi'; simplify_eq);
    simpl in *; simplify_eq; rewrite ?Hc; eauto 10.
Qed.

(** An exchange that follows a failed one is the dead-letter attempt: it
    goes to the dead-letter sink with the inbound message and the
    headers of the failed exchange, and it is the last of the call. *)
Theorem DispatchMessage_after_failure d initialMessage h destination reply
    deadLetter w i e e' :
  let new := performed w
    (DispatchMessage d initialMessage h destination reply deadLetter w).2 in
  new !! i = Some e ->
  new !! S i = Some e' ->
  is_Some (exchange_err e) ->
  sanitizeURL d deadLetter = Some (exchange_url e') /\
  exchange_message e' = initialMessage /\
  exchange_headers e' = exchange_headers e /\
  length new = S (S i).
Proof.
  destruct (DispatchMessage_performed d initialMessage h destination reply
              deadLetter w) as (err0 & Hp).
  revert Hp. generalize (performed w
    (DispatchMessage d initialMessage h destination reply deadLetter w).2).
  intros l Hp new Hi Hi' [x He]. subst new.
  paths Hp;
    repeat (destruct i as [|i]; simpl in Hi, Hi'; simplify_eq);
    simpl in *; simplify_eq; auto.
Qed.

(** With a dead-letter sink the call gives up only after that sink has
    failed too: a failed exchange that is the last of the call is the
    dead-letter attempt, made after another failed exchange. *)
Theorem DispatchMessage_dead_letter_tried d initialMessage h destination reply
    deadLetter w i e :
  let new := performed w
    (DispatchMessage d initialMessage h destination reply deadLetter w).2 in
  is_Some deadLetter ->
  new !! i = Some e ->
  length new = S i ->
  is_Some (exchange_err e) ->
  sanitizeURL d deadLetter = Some (exchange_url e) /\
  exists j e0,
    i = S j /\ new !! j = Some e0 /\ is_Some (exchange_err e0).
Proof.
  intros new [dl0 ->]. subst new.
  destruct (DispatchMessage_performed d initialMessage h destination reply
              (Some dl0) w) as (err0 & Hp).
  assert (exists dl1, sanitizeURL d (Some dl0) = Some dl1) as [dl1 Hdl1]
    by (unfold sanitizeURL; case_bool_decide; eauto).
  rewrite Hdl1 in *.
  revert Hp. generalize (performed w
    (DispatchMessage d initialMessage h destination reply (Some dl0) w).2).
  intros l Hp Hi Hlen [x He].
  paths Hp; simplify_eq;
    repeat (destruct i as [|i]; simpl in Hi, Hlen; simplify_eq);
    simpl in *; simplify_eq; (split; [done|]); eexists _, _;
    (split; [reflexivity|]); simpl; eauto.
Qed.

(** A call with an inbound message returns an error exactly when its
    last exchange failed; a call without exchanges returns [nil]. *)
Theorem DispatchMessage_fails_with_last_exchange d m h destination reply
    deadLetter w :
  exists err,
    (DispatchMessage d (Some m) h destination reply deadLetter w).1 =
      Returned err /\
    (is_Some err <->
     exists e,
       last (performed w
               (DispatchMessage d (Some m) h destination reply deadLetter w).2) =
         Some e /\
       is_Some (exchange_err e)).
Proof.
  destruct (DispatchMessage_path d m h destination reply deadLetter w)
    as (err & new & Hret & Hx & Hp).
  exists err. split; [done|]. rewrite (performed_app _ _ _ Hx).
  clear Hret Hx.
  paths Hp; simpl; try destruct dlErr as [dlErr|]; simpl;
    (split; [intros Herr; try (by destruct Herr as [? [=]]); eauto
            |intros (e & [= <-] & He); simpl in He;
             try (by destruct He as [? [=]]); eauto]).
Qed.

(** A [nil] inbound message without a destination is dropped: the call
    returns [nil], makes no exchange and releases nothing, also when a
    reply sink is given. *)
Theorem DispatchMessage_nil_inbound_dropped d h reply deadLetter w :
  (DispatchMessage d None h None reply deadLetter w).1 = Returned None /\
  exchanges (DispatchMessage d None h None reply deadLetter w).2 = exchanges w /\
  finished (DispatchMessage d None h None reply deadLetter w).2 = finished w.
Proof. done. Qed.


(** ** The origin of what an exchange returns *)

(** [executeRequest] makes up no error of its own but the one on the
    status code: an error it returns is the error of the request
    constructor, of the writer or of [Send], or it reports the status of
    a response that [isFailure] rejects. *)
Theorem executeRequest_error_origin d u initialMessage h w err :
  (executeRequest d u initialMessage h w).1.2 = Some err ->
  NewCloudEventRequestWithTarget (sender d) (URL_String u) = Err err \/
  (exists req,
     NewCloudEventRequestWithTarget (sender d) (URL_String u) = Ok req /\
     (WriteHttpRequestWithAdditionalHeaders (exchanges w) initialMessage req h =
        Some err \/
      WriteHttpRequestWithAdditionalHeaders (exchanges w) initialMessage req h =
        None /\
      (Send (sender d) (exchanges w)
         {| Target := Target req; Event := initialMessage;
            AdditionalHeaders := h |} = Err err \/
       exists response,
         Send (sender d) (exchanges w)
           {| Target := Target req; Event := initialMessage;
              AdditionalHeaders := h |} = Ok response /\
         isFailure (StatusCode response) = true /\
         err = errUnexpectedStatus (StatusCode response)))).
Proof.
  rewrite executeRequest_run. simpl. unfold executeRequest_result.
  destruct (NewCloudEventRequestWithTarget _ _) as [req|e0]; simpl;
    [|intros [= ->]; by left].
  intros Herr. right. exists req. split; [done|].
  destruct (WriteHttpRequestWithAdditionalHeaders _ _ _ _) as [e1|]; simpl in *;
    [left; congruence|].
  right. split; [done|].
  destruct (Send _ _ _) as [response|e2]; simpl in *; [|left; congruence].
  right. exists response. split; [done|].
  destruct (isFailure (StatusCode response)); simpl in *.
  - split; [done|]. congruence.
  - by case_decide.
Qed.

(** A message returned by [executeRequest] is the decoded response of a
    successful exchange: the response passed [isFailure], its message has
    a known encoding, the headers returned are the pass-through headers
    of that response, and there is no error. *)
Theorem executeRequest_message_origin d u initialMessage h w rm :
  (executeRequest d u initialMessage h w).1.1.1 = Some rm ->
  exists req response,
    NewCloudEventRequestWithTarget (sender d) (URL_String u) = Ok req /\
    WriteHttpRequestWithAdditionalHeaders (exchanges w) initialMessage req h =
      None /\
    Send (sender d) (exchanges w)
      {| Target := Target req; Event := initialMessage; AdditionalHeaders := h |} =
      Ok response /\
    isFailure (StatusCode response) = false /\
    rm = NewMessageFromHttpResponse response /\
    ReadEncoding rm <> EncodingUnknown /\
    (executeRequest d u initialMessage h w).1 =
      (Some rm, PassThroughHeaders (ResponseHeader response), None).
Proof.
  rewrite executeRequest_run. simpl.
  destruct (executeRequest_result d (exchanges w) u initialMessage h)
    as [[rm' rh] err] eqn:Hr.
  simpl. intros ->.
  destruct (executeRequest_result_message _ _ _ _ _ _ _ _ Hr)
    as (req & response & ? & ? & ? & ? & ? & ? & -> & ->).
  by exists req, response.
Qed.

(** A failed exchange returns nothing but its error: no message and no
    headers. *)
Theorem executeRequest_error_alone d u initialMessage h w err :
  (executeRequest d u initialMessage h w).1.2 = Some err ->
  (executeRequest d u initialMessage h w).1 = (None, None, Some err).
Proof.
  destruct (executeRequest d u initialMessage h w) as [[[rm rh] e] w1] eqn:He.
  simpl. intros ->.
  by destruct (executeRequest_failed_bare _ _ _ _ _ _ _ _ _ He) as [-> ->].
Qed.

End Behaviour.

(** * The behaviour on concrete runs

    The run used below: the destination answers with [answer], the reply
    sink rejects it, the dead-letter sink accepts [inbound]. *)

Lemma DispatchMessage_targets_witness :
  let d := dispatcher replyRejects in
  sanitizeURL d (Some D) = Some DL \/
  sanitizeURL d (Some R) = Some DL \/
  sanitizeURL d (Some DL) = Some DL.
Proof.
  intros d.
  exact (DispatchMessage_targets (binding := binding) (collaborators := collaborators)
           d (Some inbound) inboundHeaders
           (Some D) (Some R) (Some DL) start 2
           (exchanged DL (Some inbound) traceparent (None, None, None))
           ltac:(vm_compute; reflexivity)).
Defined.

Lemma DispatchMessage_schemes_witness :
  Scheme (target "http" "h") = "http" \/ Scheme (target "http" "h") = "https".
Proof.
  exact (DispatchMessage_schemes (binding := binding) (collaborators := collaborators)
           (Ok (server allReject)) (dispatcher allReject)
           (Some inbound) inboundHeaders (Some hostOnly) None None start 0
           (exchanged (target "http" "h") (Some inbound) inboundHeaders
              (None, None, Some "connection refused"))
           ltac:(vm_compute; reflexivity) ltac:(vm_compute; reflexivity)).
Defined.

Lemma DispatchMessage_first_exchange_witness :
  let d := dispatcher allReject in
  let e := exchanged R (Some inbound) inboundHeaders
             (None, None,
              Some "unexpected HTTP response, expected 2xx, got 503") in
  exchange_message e = Some inbound /\
  exchange_headers e = inboundHeaders /\
  Some (exchange_url e) = sanitizeURL d (Some R).
Proof.
  intros d e.
  exact (DispatchMessage_first_exchange (binding := binding) (collaborators := collaborators)
           d (Some inbound) inboundHeaders
           None (Some R) (Some DL) start e ltac:(vm_compute; reflexivity)).
Defined.

Lemma DispatchMessage_after_success_witness :
  let d := dispatcher replyRejects in
  let e := exchanged D (Some inbound) inboundHeaders
             (Some answer, traceparent, None) in
  let e' := exchanged R (Some answer) traceparent
              (None, None,
               Some "unexpected HTTP response, expected 2xx, got 503") in
  0%nat = 0%nat /\
  sanitizeURL d (Some D) = Some (exchange_url e) /\
  sanitizeURL d (Some R) = Some (exchange_url e') /\
  is_Some (exchange_response e) /\
  exchange_message e' = exchange_response e /\
  exchange_headers e' = exchange_response_headers e.
Proof.
  intros d e e'.
  exact (DispatchMessage_after_success (binding := binding) (collaborators := collaborators)
           d (Some inbound) inboundHeaders
           (Some D) (Some R) (Some DL) start 0 e e'
           ltac:(vm_compute; reflexivity) ltac:(vm_compute; reflexivity) ltac:(vm_compute; reflexivity)).
Defined.

Lemma DispatchMessage_after_failure_witness :
  let d := dispatcher replyRejects in
  let e := exchanged R (Some answer) traceparent
             (None, None,
              Some "unexpected HTTP response, expected 2xx, got 503") in
  let e' := exchanged DL (Some inbound) traceparent (None, None, None) in
  sanitizeURL d (Some DL) = Some (exchange_url e') /\
  exchange_message e' = Some inbound /\
  exchange_headers e' = exchange_headers e /\
  length (performed start
            (DispatchMessage d (Some inbound) inboundHeaders
               (Some D) (Some R) (Some DL) start).2) = 3%nat.
Proof.
  intros d e e'.
  exact (DispatchMessage_after_failure (binding := binding) (collaborators := collaborators)
           d (Some inbound) inboundHeaders
           (Some D) (Some R) (Some DL) start 1 e e'
           ltac:(vm_compute; reflexivity) ltac:(vm_compute; reflexivity) ltac:(by eexists)).
Defined.

Lemma executeRequest_error_origin_witness :
  let d := dispatcher replyRejects in
  let err := "connection refused" in
  let u := target "http" "nowhere" in
  NewCloudEventRequestWithTarget (sender d) (URL_String u) = Err err \/
  (exists req,
     NewCloudEventRequestWithTarget (sender d) (URL_String u) = Ok req /\
     (WriteHttpRequestWithAdditionalHeaders [] (Some inbound) req inboundHeaders =
        Some err \/
      WriteHttpRequestWithAdditionalHeaders [] (Some inbound) req inboundHeaders =
        None /\
      (Send (sender d) []
         {| Target := Target req; Event := Some inbound;
            AdditionalHeaders := inboundHeaders |} = Err err \/
       exists response,
         Send (sender d) []
           {| Target := Target req; Event := Some inbound;
              AdditionalHeaders := inboundHeaders |} = Ok response /\
         isFailure (StatusCode response) = true /\
         err = errUnexpectedStatus (StatusCode response)))).
Proof.
  intros d err u.
  exact (executeRequest_error_origin (binding := binding) (collaborators := collaborators)
           d u (Some inbound) inboundHeaders start err
           ltac:(vm_compute; reflexivity)).
Defined.

Lemma executeRequest_message_origin_witness :
  let d := dispatcher replyRejects in
  exists req response,
    NewCloudEventRequestWithTarget (sender d) (URL_String D) = Ok req /\
    WriteHttpRequestWithAdditionalHeaders [] (Some inbound) req inboundHeaders =
      None /\
    Send (sender d) []
      {| Target := Target req; Event := Some inbound;
         AdditionalHeaders := inboundHeaders |} = Ok response /\
    isFailure (StatusCode response) = false /\
    answer = NewMessageFromHttpResponse response /\
    ReadEncoding answer <> EncodingUnknown /\
    (executeRequest d D (Some inbound) inboundHeaders start).1 =
      (Some answer, PassThroughHeaders (ResponseHeader response), None).
Proof.
  intros d.
  exact (executeRequest_message_origin (binding := binding) (collaborators := collaborators)
           d D (Some inbound) inboundHeaders start
           answer ltac:(vm_compute; reflexivity)).
Defined.

Lemma executeRequest_error_alone_witness :
  (executeRequest (dispatcher allReject) DL (Some inbound) inboundHeaders start).1 =
    (None, None, Some "unexpected HTTP response, expected 2xx, got 404").
Proof.
  exact (executeRequest_error_alone (binding := binding) (collaborators := collaborators)
           (dispatcher allReject) DL (Some inbound)
           inboundHeaders start
           "unexpected HTTP response, expected 2xx, got 404" ltac:(vm_compute; reflexivity)).
Defined.

Lemma DispatchMessage_hosts_witness :
  Host <$> Some hostOnly = Some "h" \/
  Host <$> None = Some "h" \/
  Host <$> None = Some "h".
Proof.
  exact (DispatchMessage_hosts (binding := binding) (collaborators := collaborators)
           (dispatcher allReject) (Some inbound) inboundHeaders
           (Some hostOnly) None None start 0
           (exchanged (target "http" "h") (Some inbound) inboundHeaders
              (None, None, Some "connection refused"))
           ltac:(vm_compute; reflexivity)).
Defined.

Lemma DispatchMessage_dead_letter_tried_witness :
  let d := dispatcher allReject in
  let e0 := exchanged D (Some inbound) inboundHeaders
              (None, None,
               Some "unexpected HTTP response, expected 2xx, got 500") in
  let e := exchanged DL (Some inbound) inboundHeaders
             (None, None,
              Some "unexpected HTTP response, expected 2xx, got 404") in
  let new := performed start
    (DispatchMessage d (Some inbound) inboundHeaders (Some D) (Some R) (Some DL)
       start).2 in
  sanitizeURL d (Some DL) = Some (exchange_url e) /\
  exists j e0,
    1%nat = S j /\ new !! j = Some e0 /\ is_Some (exchange_err e0).
Proof.
  intros d e0 e new.
  exact (DispatchMessage_dead_letter_tried (binding := binding)
           (collaborators := collaborators)
           d (Some inbound) inboundHeaders (Some D) (Some R) (Some DL) start 1 e
           ltac:(by eexists) ltac:(vm_compute; reflexivity)
           ltac:(vm_compute; reflexivity) ltac:(by eexists)).
Defined.

